(** * Travel-App-API: the place research handler, [api/research.js]

    A shallow embedding of the request handler and of its helper functions
    ([clampInt], [clamp], [safeString], [safeStringArray], [safeNumber],
    [safeEnum], [safeCategory], [slugify], [safeId], [geocodeConfidence],
    [dedupePlaces], [handler]) together with the part of the JavaScript
    runtime they rely on (value coercions, string methods, [Math.min] and
    [Math.max], [parseInt]).

    Conventions of the model.
    - A JavaScript number is an IEEE 754 binary64 value, here a [spec_float]
      of the Standard Library with precision 53 and maximal exponent 1024
      (no NaN payload, as in JavaScript).
    - A string is a sequence of UTF-16 code units; the model covers the code
      units U+0000 to U+00FF, one [ascii] character each.
    - A value is what [JSON.parse] builds, or [undefined]. The conversions
      [String(v)], [Number(v)], [parseInt(v, 10)] and [join] raise a
      [TypeError] on an object that has an own [toString] property, and so
      does every function that converts; a function that can raise returns
      a [result].
    - The two remote services and the clock are collaborators of the handler:
      they are fields of a [world] record that the handler receives. *)

From Stdlib Require Import ZArith Bool List String Ascii Lia.
From Stdlib Require Import Floats.SpecFloat Floats.PrimFloat Floats.FloatOps.
From Stdlib Require Import DecimalString.
From stdpp Require Import gmap strings list.

Set Warnings "-inexact-float,-register-all".

Local Open Scope string_scope.
Local Open Scope Z_scope.

(** ** Numbers *)

Module Num.

Definition number : Type := spec_float.

Definition prec : Z := 53.
Definition emax : Z := 1024.

Definition NaN : number := S754_nan.
Definition Infinity : number := S754_infinity false.
Definition zero : number := S754_zero false.

(** The number nearest to an integer (round to nearest, ties to even). *)
Definition of_Z (z : Z) : number := binary_normalize prec emax z 0 false.

(** The number nearest to the quotient [n / d] of two positive integers. *)
Definition of_quotient (neg : bool) (n d : positive) : number :=
  let r := SFdiv prec emax (S754_finite false n 0) (S754_finite false d 0) in
  if neg then SFopp r else r.

Definition one : number := Eval vm_compute in of_Z 1.

(** The literals of the source. *)
Definition lit_0_5 : number := Eval vm_compute in Prim2SF 0.5%float.
Definition lit_12 : number := Eval vm_compute in Prim2SF 12%float.
Definition lit_0_78 : number := Eval vm_compute in Prim2SF 0.78%float.
Definition lit_0_72 : number := Eval vm_compute in Prim2SF 0.72%float.
Definition lit_0_65 : number := Eval vm_compute in Prim2SF 0.65%float.

Definition is_nan (x : number) : bool :=
  match x with S754_nan => true | _ => false end.

(** [Number.isFinite] on a number. *)
Definition isFinite (x : number) : bool :=
  match x with
  | S754_zero _ | S754_finite _ _ _ => true
  | S754_infinity _ | S754_nan => false
  end.

Definition is_neg_zero (x : number) : bool :=
  match x with S754_zero true => true | _ => false end.

(** Numeric comparison [x <= y] and equality [x == y] (both false on NaN). *)
Definition leb (x y : number) : bool := SFleb x y.
Definition eqb (x y : number) : bool := SFeqb x y.

(** [Math.min(a, b)]: NaN if either is NaN, and [-0] is below [+0]. *)
Definition Math_min (a b : number) : number :=
  match SFcompare a b with
  | None => NaN
  | Some Lt => a
  | Some Gt => b
  | Some Eq => if is_neg_zero a then a else b
  end.

(** [Math.max(a, b)]: NaN if either is NaN, and [+0] is above [-0]. *)
Definition Math_max (a b : number) : number :=
  match SFcompare b a with
  | None => NaN
  | Some Lt => a
  | Some Gt => b
  | Some Eq => if is_neg_zero a then b else a
  end.

End Num.

Export Num.

(** ** Strings *)

Module Str.

Definition code (c : ascii) : Z := Z.of_N (N_of_ascii c).

Definition length (s : string) : Z := Z.of_nat (String.length s).

(** White space and line terminators, as [String.prototype.trim] and the
    numeric conversions see them (U+0009 to U+000D, U+0020, U+00A0). *)
Definition is_ws (c : ascii) : bool :=
  let n := code c in
  ((9 <=? n) && (n <=? 13)) || (n =? 32) || (n =? 160).

Fixpoint trimStart (s : string) : string :=
  match s with
  | EmptyString => EmptyString
  | String c s' => if is_ws c then trimStart s' else s
  end.

Fixpoint trimEnd (s : string) : string :=
  match s with
  | EmptyString => EmptyString
  | String c s' =>
      match trimEnd s' with
      | EmptyString => if is_ws c then EmptyString else String c EmptyString
      | r => String c r
      end
  end.

(** [s.trim()] *)
Definition trim (s : string) : string := trimEnd (trimStart s).

(** Lower-case mapping of one code unit: [A-Z], and U+00C0 to U+00DE
    without the multiplication sign U+00D7. *)
Definition lower_char (c : ascii) : ascii :=
  let n := code c in
  if ((65 <=? n) && (n <=? 90)) || ((192 <=? n) && (n <=? 222) && negb (n =? 215))
  then ascii_of_N (Z.to_N (n + 32))
  else c.

(** [s.toLowerCase()] *)
Fixpoint toLowerCase (s : string) : string :=
  match s with
  | EmptyString => EmptyString
  | String c s' => String (lower_char c) (toLowerCase s')
  end.

(** A relative index of [slice], resolved against the length. *)
Definition clamp_index (len i : Z) : Z :=
  if i <? 0 then Z.max (len + i) 0 else Z.min i len.

(** [s.slice(start, end)] *)
Definition slice (s : string) (start stop : Z) : string :=
  let len := length s in
  let from := clamp_index len start in
  let to := clamp_index len stop in
  substring (Z.to_nat from) (Z.to_nat (Z.max (to - from) 0)) s.

(** [s.slice(start)] *)
Definition slice_from (s : string) (start : Z) : string :=
  slice s start (length s).

Fixpoint starts_with (p s : string) : bool :=
  match p, s with
  | EmptyString, _ => true
  | String a p', String b s' => Ascii.eqb a b && starts_with p' s'
  | String _ _, EmptyString => false
  end.

(** [s.includes(sub)] on strings: [sub] occurs somewhere in [s]. *)
Fixpoint includes (s sub : string) : bool :=
  starts_with sub s ||
  match s with
  | EmptyString => false
  | String _ s' => includes s' sub
  end.

Definition is_empty (s : string) : bool :=
  match s with EmptyString => true | _ => false end.

(** Decimal digits of a non-negative integer. *)
Definition of_Z (z : Z) : string :=
  match z with
  | Zpos p => NilEmpty.string_of_uint (Pos.to_uint p)
  | _ => "0"
  end.

Fixpoint repeat0 (n : nat) : string :=
  match n with O => EmptyString | S k => String "0" (repeat0 k) end.

Definition zeros (n : Z) : string := repeat0 (Z.to_nat n).

End Str.

(** ** Conversions between numbers and strings *)

Module NumStr.

(** Comparison of the decimal [s * 10^p] with the binary [b * 2^e]. *)
Definition cmp_dec_bin (s p b e : Z) : comparison :=
  Z.compare (s * 10 ^ Z.max p 0 * 2 ^ Z.max (- e) 0)
            (b * 10 ^ Z.max (- p) 0 * 2 ^ Z.max e 0).

(** The least [n], searched upwards from [n], with [b * 2^e < 10^n]. *)
Fixpoint dec_exponent (fuel : nat) (n b e : Z) : Z :=
  match fuel with
  | O => n
  | S fuel' =>
      match cmp_dec_bin 1 n b e with
      | Gt => n
      | _ => dec_exponent fuel' (n + 1) b e
      end
  end.

(** The shortest decimal [(s, n, k)] of a positive finite number [m * 2^e]
    (17 digits always tell a binary64 number apart, and its decimal
    exponent lies between -323 and 309, so that neither search below runs
    out of fuel):
    [s] has [k] digits, [s * 10^(n-k)] rounds to the number, [k] is as small
    as possible and, for that [k], the decimal is the closest one. The
    interval of the decimals that round to the number is given in quarters of
    the unit in the last place, [lo * 2^(e-2)] to [hi * 2^(e-2)], and it
    contains its ends when [m] is even. *)
Section Shortest.
Variables (m : positive) (e : Z).

Let x4 : Z := 4 * Zpos m.
Let e4 : Z := e - 2.
Let hi : Z := x4 + 2.
Let lo : Z :=
  if (Zpos m =? 2 ^ 52) && (-1074 <? e) then x4 - 1 else x4 - 2.
Let closed : bool := Z.even (Zpos m).

Definition in_interval (s p : Z) : bool :=
  match cmp_dec_bin s p lo e4, cmp_dec_bin s p hi e4 with
  | Gt, Lt => true
  | Eq, Lt | Gt, Eq => closed
  | _, _ => false
  end.

Definition candidate (n k : Z) : option (Z * Z) :=
  let p := n - k in
  let below :=
    (x4 * 2 ^ Z.max e4 0 * 10 ^ Z.max (- p) 0)
    / (2 ^ Z.max (- e4) 0 * 10 ^ Z.max p 0) in
  let above := below + 1 in
  let norm (s : Z) := if s =? 10 ^ k then (10 ^ (k - 1), n + 1) else (s, n) in
  match in_interval below p, in_interval above p with
  | false, false => None
  | true, false => Some (norm below)
  | false, true => Some (norm above)
  | true, true =>
      match cmp_dec_bin (2 * below + 1) p (2 * x4) e4 with
      | Gt => Some (norm below)
      | Lt => Some (norm above)
      | Eq => Some (norm (if Z.even below then below else above))
      end
  end.

Fixpoint shortest_from (fuel : nat) (n k : Z) : Z * Z * Z :=
  match fuel with
  | O => (0, n, k)
  | S fuel' =>
      match candidate n k with
      | Some (s, n') => (s, n', k)
      | None => shortest_from fuel' n (k + 1)
      end
  end.

Definition shortest : Z * Z * Z :=
  shortest_from 17 (dec_exponent 700 (-330) x4 e4) 1.
End Shortest.

(** [Number::toString] of a positive finite number, from its shortest
    decimal. *)
Definition format_decimal (s n k : Z) : string :=
  let d := Str.of_Z s in
  if (k <=? n) && (n <=? 21) then d ++ Str.zeros (n - k)
  else if (0 <? n) && (n <=? 21) then
    Str.slice d 0 n ++ "." ++ Str.slice_from d n
  else if (-6 <? n) && (n <=? 0) then "0." ++ Str.zeros (- n) ++ d
  else
    let ex := n - 1 in
    let sign := if ex <? 0 then "-" else "+" in
    let mant := if k =? 1 then d else Str.slice d 0 1 ++ "." ++ Str.slice_from d 1 in
    mant ++ "e" ++ sign ++ Str.of_Z (Z.abs ex).

(** [String(x)] for a number [x]. *)
Definition to_string (x : number) : string :=
  match x with
  | S754_nan => "NaN"
  | S754_zero _ => "0"
  | S754_infinity s => if s then "-Infinity" else "Infinity"
  | S754_finite s m e =>
      let '(d, n, k) := shortest m e in
      (if s then "-" else "") ++ format_decimal d n k
  end.

(** *** Numeric literals *)

Definition digit (radix : Z) (c : ascii) : option Z :=
  let n := Str.code c in
  let v :=
    if (48 <=? n) && (n <=? 57) then n - 48
    else if (97 <=? n) && (n <=? 102) then n - 87
    else if (65 <=? n) && (n <=? 70) then n - 55
    else 99 in
  if v <? radix then Some v else None.

(** The longest prefix of digits: its value, its length and the rest. *)
Fixpoint digits (radix : Z) (s : string) (acc cnt : Z) : Z * Z * string :=
  match s with
  | EmptyString => (acc, cnt, s)
  | String c s' =>
      match digit radix c with
      | Some v => digits radix s' (acc * radix + v) (cnt + 1)
      | None => (acc, cnt, s)
      end
  end.

(** An optional sign: [true] for a minus. *)
Definition sign (s : string) : bool * string :=
  match s with
  | String "-" s' => (true, s')
  | String "+" s' => (false, s')
  | _ => (false, s)
  end.

(** The number nearest to [m * 10^ex], with the sign [neg]. *)
Definition of_decimal (neg : bool) (m ex : Z) : number :=
  match m with
  | Zpos p =>
      if 0 <=? ex then of_quotient neg (p * Z.to_pos (10 ^ ex)) 1
      else of_quotient neg p (Z.to_pos (10 ^ (- ex)))
  | _ => S754_zero neg
  end.

Definition exponent_part (s : string) : option (Z * string) :=
  match s with
  | String c s' =>
      if Ascii.eqb c "e" || Ascii.eqb c "E" then
        let '(neg, s1) := sign s' in
        let '(v, cnt, rest) := digits 10 s1 0 0 in
        if 0 <? cnt then Some (if neg then - v else v, rest) else None
      else Some (0, s)
  | EmptyString => Some (0, s)
  end.

Definition decimal_literal (s : string) : number :=
  let '(neg, s1) := sign s in
  if String.eqb s1 "Infinity" then S754_infinity neg
  else
    let '(ip, ni, s2) := digits 10 s1 0 0 in
    let '(fp, nf, s3) :=
      match s2 with
      | String "." s2' => digits 10 s2' ip 0
      | _ => (ip, 0, s2)
      end in
    if ni + nf =? 0 then NaN
    else
      match exponent_part s3 with
      | Some (ex, EmptyString) => of_decimal neg fp (ex - nf)
      | _ => NaN
      end.

Definition radix_literal (radix : Z) (s : string) : number :=
  match digits radix s 0 0 with
  | (v, cnt, EmptyString) => if 0 <? cnt then of_Z v else NaN
  | _ => NaN
  end.

(** [Number(s)] for a string [s]. *)
Definition of_string (s : string) : number :=
  let t := Str.trim s in
  match t with
  | EmptyString => zero
  | String "0" (String c t') =>
      if Ascii.eqb c "x" || Ascii.eqb c "X" then radix_literal 16 t'
      else if Ascii.eqb c "o" || Ascii.eqb c "O" then radix_literal 8 t'
      else if Ascii.eqb c "b" || Ascii.eqb c "B" then radix_literal 2 t'
      else decimal_literal t
  | _ => decimal_literal t
  end.

(** [parseInt(s, 10)] for a string [s]. *)
Definition parseInt10 (s : string) : number :=
  let '(neg, s1) := sign (Str.trimStart s) in
  let '(v, cnt, _) := digits 10 s1 0 0 in
  if cnt =? 0 then NaN
  else if v =? 0 then S754_zero neg
  else of_Z (if neg then - v else v).

End NumStr.

(** ** Values *)

(** The values the handler meets: what [JSON.parse] builds, and
    [undefined] for an absent property. An object is the list of its own
    properties. *)
Inductive value : Type :=
  | VUndefined
  | VNull
  | VBool (b : bool)
  | VNum (n : number)
  | VStr (s : string)
  | VArr (items : list value)
  | VObj (fields : list (string * value)).

(** Exceptions, with their message. *)
Inductive error : Type :=
  | Error (message : string)
  | TypeError (message : string).

Inductive result (A : Type) : Type :=
  | Ok (a : A)
  | Throw (e : error).

Arguments Ok {A} a.
Arguments Throw {A} e.

Definition bind {A B : Type} (r : result A) (k : A -> result B) : result B :=
  match r with
  | Ok a => k a
  | Throw e => Throw e
  end.

Notation "'let*' x ':=' r 'in' k" := (bind r (fun x => k))
  (at level 10, x name, r at level 100, k at level 200).

Definition message_of (e : error) : string :=
  match e with Error m | TypeError m => m end.

(** Truthiness, the test of [if], [!], [||] and [?:]. *)
Definition truthy (v : value) : bool :=
  match v with
  | VUndefined | VNull => false
  | VBool b => b
  | VNum (S754_nan | S754_zero _) => false
  | VNum _ => true
  | VStr s => negb (Str.is_empty s)
  | VArr _ | VObj _ => true
  end.

(** [a || b] *)
Definition or_else (a b : value) : value := if truthy a then a else b.

(** The object has an own property of that name. *)
Definition has_own (k : string) (fields : list (string * value)) : bool :=
  existsb (fun kv => String.eqb k (fst kv)) fields.

(** The [TypeError] of a conversion to a primitive value that finds no
    method to call; the wording is the engine's. *)
Definition not_primitive : error :=
  TypeError "Cannot convert object to primitive value".

(** [String(v)]. An array joins its items with commas, [null] and
    [undefined] items being empty. No own property of an object built by
    [JSON.parse] is a function: when the object has an own [toString], the
    conversion finds neither a [toString] to call nor a [valueOf] that gives
    a primitive value, and raises; otherwise the inherited [toString]
    answers. *)
Fixpoint ToString (v : value) : result string :=
  match v with
  | VUndefined => Ok "undefined"
  | VNull => Ok "null"
  | VBool b => Ok (if b then "true" else "false")
  | VNum n => Ok (NumStr.to_string n)
  | VStr s => Ok s
  | VArr items =>
      let item (x : value) : result string :=
        match x with
        | VUndefined | VNull => Ok EmptyString
        | _ => ToString x
        end in
      (fix join (l : list value) : result string :=
         match l with
         | [] => Ok EmptyString
         | [x] => item x
         | x :: l' =>
             let* a := item x in
             let* b := join l' in
             Ok (a ++ "," ++ b)
         end) items
  | VObj fields =>
      if has_own "toString" fields then Throw not_primitive
      else Ok "[object Object]"
  end.

(** [items.join(sep)] on an array *)
Fixpoint Array_join (sep : string) (items : list value) : result string :=
  let item (x : value) : result string :=
    match x with
    | VUndefined | VNull => Ok EmptyString
    | _ => ToString x
    end in
  match items with
  | [] => Ok EmptyString
  | [x] => item x
  | x :: rest =>
      let* a := item x in
      let* b := Array_join sep rest in
      Ok (a ++ sep ++ b)
  end.

(** [Number(v)]; an array or an object is converted to its string first
    (its inherited [valueOf] gives no primitive value). *)
Definition ToNumber (v : value) : result number :=
  match v with
  | VUndefined => Ok NaN
  | VNull => Ok zero
  | VBool b => Ok (if b then one else zero)
  | VNum n => Ok n
  | VStr s => Ok (NumStr.of_string s)
  | VArr _ | VObj _ =>
      let* s := ToString v in
      Ok (NumStr.of_string s)
  end.

(** [parseInt(v, 10)] *)
Definition parseInt (v : value) : result number :=
  let* s := ToString v in
  Ok (NumStr.parseInt10 s).

Fixpoint lookup_field (k : string) (fields : list (string * value)) : value :=
  match fields with
  | [] => VUndefined
  | (k', v) :: rest => if String.eqb k k' then v else lookup_field k rest
  end.

(** [v?.k] for a key [k] that names a data property (none of the keys of the
    source is [length], an index or a method): the own property of an
    object, [undefined] on anything else. On a value that is neither [null]
    nor [undefined], [v.k] is the same. *)
Definition prop (v : value) (k : string) : value :=
  match v with
  | VObj fields => lookup_field k fields
  | _ => VUndefined
  end.

(** [v?.[0]] *)
Definition index0 (v : value) : value :=
  match v with
  | VArr (x :: _) => x
  | VStr (String c _) => VStr (String c EmptyString)
  | VObj fields => lookup_field "0" fields
  | _ => VUndefined
  end.

(** [Array.isArray(v)] *)
Definition isArray (v : value) : bool :=
  match v with VArr _ => true | _ => false end.

(** The text the engine prints for the callee of [(x?.k || "").trim()]. *)
Definition or_empty : string :=
  Eval vm_compute in
    "((intermediate value) || "
    ++ String (ascii_of_nat 34) (String (ascii_of_nat 34) ")").

(** [(v).trim()] on an arbitrary value: only a string has the method. *)
Definition trim_method (what : string) (v : value) : result string :=
  match v with
  | VStr s => Ok (Str.trim s)
  | _ => Throw (TypeError (what ++ ".trim is not a function"))
  end.

(** ** The helpers of [api/research.js] *)

Definition clamp (n min max : number) : number :=
  Math_max min (Math_min max n).

Definition clampInt (v : value) (min max fallback : number) : result number :=
  let* n := parseInt v in
  if negb (isFinite n) then Ok fallback
  else Ok (Math_max min (Math_min max n)).

Definition safeString (v : value) (maxLen : Z) : result string :=
  let* t := ToString (or_else v (VStr "")) in
  let s := Str.trim t in
  if Str.is_empty s then Ok ""
  else if maxLen <? Str.length s then Ok (Str.trim (Str.slice s 0 (maxLen - 1)))
  else Ok s.

(** The loop of [safeStringArray]: an item is converted when the loop
    reaches it, and no item is reached after the [break]. *)
Fixpoint safeStringArray_loop (items : list value) (maxItems maxItemLen : Z)
    (out : list string) : result (list string) :=
  match items with
  | [] => Ok out
  | item :: rest =>
      let* s := safeString item maxItemLen in
      let out' := if Str.is_empty s then out else (out ++ [s])%list in
      if maxItems <=? Z.of_nat (List.length out') then Ok out'
      else safeStringArray_loop rest maxItems maxItemLen out'
  end.

Definition safeStringArray (v : value) (maxItems maxItemLen : Z)
    : result (list string) :=
  match v with
  | VArr items => safeStringArray_loop items maxItems maxItemLen []
  | _ => Ok []
  end.

(** The result is a number or [null]. *)
Definition safeNumber (v : value) (min max : number) : result value :=
  let* n := ToNumber v in
  if negb (isFinite n) then Ok VNull
  else Ok (VNum (clamp n min max)).

Definition safeEnum (v : value) (allowed : list string) (fallback : string)
    : result string :=
  let* t := ToString (or_else v (VStr "")) in
  let s := Str.trim t in
  if existsb (String.eqb s) allowed then Ok s else Ok fallback.

Definition categories : gset string :=
  list_to_set
    ["sight"; "museum"; "neighborhood"; "food"; "viewpoint"; "day_trip";
     "nature"; "activity"].

Definition safeCategory (v : value) : result string :=
  let allowed := categories in
  let* t := ToString (or_else v (VStr "")) in
  let s := Str.trim t in
  if decide (s ∈ allowed) then Ok s else Ok "sight".

Definition times_of_day : list string :=
  ["morning"; "afternoon"; "evening"; "late_afternoon"; "night"].

(** *** [slugify] and [safeId] *)

Definition is_alnum (c : ascii) : bool :=
  let n := Str.code c in
  ((97 <=? n) && (n <=? 122)) || ((48 <=? n) && (n <=? 57)).

(** [s.replace(/[^a-z0-9]+/g, "-")]; [in_run] tells that the previous
    character was already replaced. *)
Fixpoint replace_runs (in_run : bool) (s : string) : string :=
  match s with
  | EmptyString => EmptyString
  | String c s' =>
      if is_alnum c then String c (replace_runs false s')
      else if in_run then replace_runs true s'
      else String "-" (replace_runs true s')
  end.

Definition strip_leading_hyphen (s : string) : string :=
  match s with
  | String "-" s' => s'
  | _ => s
  end.

Fixpoint strip_trailing_hyphen (s : string) : string :=
  match s with
  | EmptyString => EmptyString
  | String c EmptyString => if Ascii.eqb c "-" then EmptyString else s
  | String c s' => String c (strip_trailing_hyphen s')
  end.

(** [s.replace(/(^-|-$)/g, "")] *)
Definition strip_edge_hyphens (s : string) : string :=
  strip_trailing_hyphen (strip_leading_hyphen s).

(** The chain of [slugify] before its [|| "place"]. *)
Definition slug_text (s : value) : result string :=
  let* t := ToString (or_else s (VStr "")) in
  Ok (Str.slice
        (strip_edge_hyphens (replace_runs false (Str.toLowerCase t))) 0 64).

Definition slugify (s : value) : result string :=
  let* r := slug_text s in
  if Str.is_empty r then Ok "place" else Ok r.

(** [suffix] is what [Math.random().toString(16).slice(2)] yields when it is
    evaluated. *)
Definition safeId (suffix : string) (s : value) : result string :=
  let* id := slugify s in
  if Str.is_empty id then Ok ("place-" ++ suffix) else Ok id.

(** *** [geocodeConfidence] *)

(** [types.includes(x)]: membership in an array, occurrence in a string; no
    other value has the method. *)
Definition includes_method (types : value) (x : string) : result bool :=
  match types with
  | VArr items =>
      Ok (existsb (fun v => match v with VStr s => String.eqb s x | _ => false end)
            items)
  | VStr s => Ok (Str.includes s x)
  | _ => Throw (TypeError "types.includes is not a function")
  end.

Definition geocodeConfidence (feature : value) : result number :=
  let rel :=
    match prop feature "relevance" with
    | VNum r => Some r
    | _ => None
    end in
  match rel with
  | Some r => Ok (clamp r zero one)
  | None =>
      let types := or_else (prop feature "place_type") (VArr []) in
      let* is_poi := includes_method types "poi" in
      if is_poi then Ok lit_0_78
      else
        let* is_nbh := includes_method types "neighborhood" in
        if is_nbh then Ok lit_0_72 else Ok lit_0_65
  end.

(** *** Places and [dedupePlaces] *)

Module Place.
Record t : Type := make {
  id : string;
  name : string;
  category : string;
  lat : value;
  lng : value;
  highlights : list string;
  why_go : string;
  time_needed_hours : value;
  best_time_of_day : string;
  tags : list string;
  confidence : number
}.
End Place.

Abbreviation place := Place.t.

(** The key of a place, [`${(p.id || "").toLowerCase()}|${(p.name || "").toLowerCase()}`];
    on a string, [|| ""] changes nothing. *)
Definition dedupe_key (p : place) : string :=
  Str.toLowerCase (Place.id p) ++ "|" ++ Str.toLowerCase (Place.name p).

(** The loop of [dedupePlaces], from the state [(seen, out)]. *)
Fixpoint dedupe_loop (places : list place) (seen : gset string)
    (out : list place) : list place :=
  match places with
  | [] => out
  | p :: rest =>
      let key := dedupe_key p in
      if decide (key ∈ seen) then dedupe_loop rest seen out
      else dedupe_loop rest (seen ∪ {[ key ]}) (out ++ [p])%list
  end.

Definition dedupePlaces (places : list place) : list place :=
  dedupe_loop places ∅ [].

(** ** The collaborators of the handler *)

(** What [fetch] gives back: it fails, or there is a response with its
    status line, its body as text and its body as parsed by [resp.json()]. *)
Inductive fetched : Type :=
  | FetchFails (e : error)
  | Response (ok : bool) (status : number) (statusText text : string)
      (json : result value).

(** The arguments of [getCandidatePlacesFromLLM]; the prompt sent to the
    chat endpoint is built from them. *)
Record llm_request : Type := {
  openaiKey : string;
  model : string;
  llm_destinationQuery : string;
  llm_interests : list value;
  llm_ask : string;
  llm_maxPlaces : number
}.

(** The arguments of [mapboxGeocode], as they reach the URL: [geo_bbox] is
    the joined bounding box when one is sent. *)
Record geocode_request : Type := {
  token : string;
  query : string;
  limit : number;
  types : string;
  geo_bbox : option string
}.

Record world : Type := {
  (** [fetch] of the chat completion endpoint *)
  openai : llm_request -> fetched;
  (** [fetch] of the geocoding endpoint *)
  mapbox : geocode_request -> fetched;
  (** [JSON.parse], [None] when it throws *)
  JSON_parse : string -> option value;
  (** [new Date().toISOString()] *)
  now : string;
  (** [Math.random().toString(16).slice(2)] *)
  random_suffix : string;
  (** [process.env] *)
  OPENAI_API_KEY : option string;
  OPENAI_MODEL : option string;
  MAPBOX_TOKEN : option string
}.

(** [t.indexOf(c)] and [t.lastIndexOf(c)] for a character, [-1] if absent. *)
Fixpoint indexOf_from (c : ascii) (t : string) (i : Z) : Z :=
  match t with
  | EmptyString => -1
  | String a t' => if Ascii.eqb a c then i else indexOf_from c t' (i + 1)
  end.

Fixpoint lastIndexOf_from (c : ascii) (t : string) (i last : Z) : Z :=
  match t with
  | EmptyString => last
  | String a t' =>
      lastIndexOf_from c t' (i + 1) (if Ascii.eqb a c then i else last)
  end.

Definition extractJsonObject (text : value) : result string :=
  let* s := ToString (or_else text (VStr "")) in
  let t := Str.trim s in
  let start := indexOf_from "{" t 0 in
  let stop := lastIndexOf_from "}" t 0 (-1) in
  if (0 <=? start) && (start <? stop) then Ok (Str.slice t start (stop + 1))
  else Ok t.

(** The result is the parsed value, or [null]. *)
Definition safeJsonParse (w : world) (s : string) : value :=
  match JSON_parse w s with
  | Some v => v
  | None => VNull
  end.

(** The error of a response that is not [ok]. *)
Definition upstream_error (service : string) (status : number)
    (statusText text : string) : error :=
  Error (service ++ " (" ++ NumStr.to_string status ++ "): "
         ++ (if Str.is_empty text then statusText else text)).

(** The prompt is built before the request is sent: the interests are
    joined into it, which converts each of them to a string. *)
Definition getCandidatePlacesFromLLM (w : world) (rq : llm_request)
    : result value :=
  let* interests_line := Array_join ", " (llm_interests rq) in
  match openai w rq with
  | FetchFails e => Throw e
  | Response ok status statusText t json =>
      if negb ok then Throw (upstream_error "OpenAI error" status statusText t)
      else
        let* data := json in
        let content :=
          or_else
            (prop (prop (index0 (prop data "choices")) "message") "content")
            (VStr "") in
        let* text := extractJsonObject content in
        let parsed := safeJsonParse w text in
        if negb (truthy parsed)
        then Throw (Error "LLM did not return valid JSON.")
        else Ok parsed
  end.

(** The URL is built before the request is sent: a bounding box of four
    entries is joined into it. *)
Definition mapboxGeocode (w : world) (token query : string) (limit : number)
    (types : string) (bbox : value) : result value :=
  let* bbox_param :=
    match bbox with
    | VArr items =>
        if Z.of_nat (List.length items) =? 4
        then let* joined := Array_join "," items in Ok (Some joined)
        else Ok None
    | _ => Ok None
    end in
  match mapbox w {| token := token; query := query; limit := limit;
                    types := types; geo_bbox := bbox_param |} with
  | FetchFails e => Throw e
  | Response ok status statusText t json =>
      if negb ok
      then Throw (upstream_error "Mapbox geocode error" status statusText t)
      else json
  end.

(** ** The handler *)

Record request : Type := {
  method : string;
  body : value
}.

(** The JSON body of a 200 response; an absent field is [None]. *)
Record destination : Type := {
  dest_query : string;
  bbox : option value
}.

Record meta : Type := {
  generated_at : string;
  geocode_provider : option string;
  cache_hit : bool
}.

Record payload : Type := {
  destination_of : destination;
  places : list place;
  meta_of : meta
}.

(** [res.status(n).send(text)] and [res.status(n).json(body)] *)
Inductive response : Type :=
  | Send (status : Z) (text : string)
  | Json (status : Z) (body : payload).

(** The integral part of a finite number, towards zero. *)
Definition trunc (x : number) : Z :=
  match x with
  | S754_finite s m e =>
      let a := if 0 <=? e then Zpos m * 2 ^ e else Zpos m / 2 ^ (- e) in
      if s then - a else a
  | _ => 0
  end.

(** [items.slice(0, stop)] on an array. *)
Definition array_slice0 {A : Type} (items : list A) (stop : number) : list A :=
  let len := Z.of_nat (List.length items) in
  let final :=
    match stop with
    | S754_infinity false => len
    | S754_finite _ _ _ => Str.clamp_index len (trunc stop)
    | _ => 0
    end in
  take (Z.to_nat final) items.

Definition array_length (v : value) : Z :=
  match v with VArr items => Z.of_nat (List.length items) | _ => 0 end.

Definition array_item (i : nat) (v : value) : value :=
  match v with VArr items => nth i items VUndefined | _ => VUndefined end.

(** [!process.env.X] *)
Definition unset (x : option string) : bool :=
  match x with
  | Some s => Str.is_empty s
  | None => true
  end.

Definition five : number := Eval vm_compute in Num.of_Z 5.
Definition twenty_five : number := Eval vm_compute in Num.of_Z 25.
Definition fifteen : number := Eval vm_compute in Num.of_Z 15.

(** [c?.id || slugify(name)]: the slug of the name is computed only for a
    candidate whose [id] is falsy. *)
Definition id_or_slug (c : value) (name : string) : result value :=
  if truthy (prop c "id") then Ok (prop c "id")
  else let* slug := slugify (VStr name) in Ok (VStr slug).

(** One turn of the loop over the candidates: the place to push, or [None]
    where the source says [continue]. The fields of the place are evaluated
    in the order of the object literal, and the first conversion that raises
    ends the turn. The wording of the [TypeError] of a call of [trim] on a
    value that has no such method is the engine's. *)
Definition geocodeCandidate (w : world) (MAPBOX_TOKEN destinationQuery : string)
    (destBbox c : value) : result (option place) :=
  let* name :=
    trim_method or_empty (or_else (prop c "name") (VStr "")) in
  if Str.is_empty name then Ok None
  else
    let q := name ++ ", " ++ destinationQuery in
    let* r :=
      mapboxGeocode w MAPBOX_TOKEN q one "poi,neighborhood,place,address"
        destBbox in
    let f := index0 (prop r "features") in
    if negb (truthy f) || negb (isArray (prop f "center"))
       || negb (array_length (prop f "center") =? 2)
    then Ok None
    else
      let lng := array_item 0 (prop f "center") in
      let lat := array_item 1 (prop f "center") in
      let* id_or_name := id_or_slug c name in
      let* id := safeId (random_suffix w) id_or_name in
      let* category := safeCategory (prop c "category") in
      let* highlights := safeStringArray (prop c "highlights") 6 80 in
      let* why_go := safeString (prop c "why_go") 260 in
      let* time_needed_hours :=
        safeNumber (prop c "time_needed_hours") lit_0_5 lit_12 in
      let* best_time_of_day :=
        safeEnum (prop c "best_time_of_day") times_of_day "afternoon" in
      let* tags := safeStringArray (prop c "tags") 8 30 in
      let* confidence := geocodeConfidence f in
      Ok (Some
            {| Place.id := id;
               Place.name := name;
               Place.category := category;
               Place.lat := lat;
               Place.lng := lng;
               Place.highlights := highlights;
               Place.why_go := why_go;
               Place.time_needed_hours := time_needed_hours;
               Place.best_time_of_day := best_time_of_day;
               Place.tags := tags;
               Place.confidence := confidence |}).

(** The loop [for (const c of ...)], pushing onto [geocoded]. *)
Fixpoint geocode_loop (w : world) (MAPBOX_TOKEN destinationQuery : string)
    (destBbox : value) (candidates : list value) (geocoded : list place)
    : result (list place) :=
  match candidates with
  | [] => Ok geocoded
  | c :: rest =>
      let* pushed := geocodeCandidate w MAPBOX_TOKEN destinationQuery destBbox c in
      geocode_loop w MAPBOX_TOKEN destinationQuery destBbox rest
        (match pushed with
         | Some p => (geocoded ++ [p])%list
         | None => geocoded
         end)
  end.

(** The body of the [try] block. *)
Definition handler_try (w : world) (req : request) : result response :=
  if negb (String.eqb (method req) "POST") then Ok (Send 405 "Method Not Allowed")
  else
    let body := or_else (body req) (VObj []) in
    let trip := prop body "trip" in
    let options := prop body "options" in
    let* destinationQuery :=
      trim_method or_empty
        (or_else (prop trip "destination_query") (VStr "")) in
    if Str.is_empty destinationQuery
    then Ok (Send 400 "Missing trip.destination_query")
    else
      let* maxPlaces :=
        clampInt (prop options "max_places") five twenty_five fifteen in
      let interests :=
        match prop trip "interests" with
        | VArr items => take 12 items
        | _ => []
        end in
      let* ask :=
        trim_method or_empty (or_else (prop trip "ask") (VStr "")) in
      let OPENAI_MODEL :=
        match OPENAI_MODEL w with
        | Some m => if Str.is_empty m then "gpt-4o-mini" else m
        | None => "gpt-4o-mini"
        end in
      if unset (OPENAI_API_KEY w) then Ok (Send 500 "Server missing OPENAI_API_KEY")
      else if unset (MAPBOX_TOKEN w) then Ok (Send 500 "Server missing MAPBOX_TOKEN")
      else
        let OPENAI_API_KEY := default "" (OPENAI_API_KEY w) in
        let MAPBOX_TOKEN := default "" (MAPBOX_TOKEN w) in
        let* llmJson :=
          getCandidatePlacesFromLLM w
            {| openaiKey := OPENAI_API_KEY;
               model := OPENAI_MODEL;
               llm_destinationQuery := destinationQuery;
               llm_interests := interests;
               llm_ask := ask;
               llm_maxPlaces := maxPlaces |} in
        let candidates :=
          match prop llmJson "places" with
          | VArr items => items
          | _ => []
          end in
        if Z.of_nat (List.length candidates) =? 0 then
          Ok (Json 200
                {| destination_of :=
                     {| dest_query := destinationQuery; bbox := None |};
                   places := [];
                   meta_of :=
                     {| generated_at := now w;
                        geocode_provider := None;
                        cache_hit := false |} |})
        else
          let* destGeo :=
            mapboxGeocode w MAPBOX_TOKEN destinationQuery one
              "place,region,country" VUndefined in
          let destBbox :=
            or_else (prop (index0 (prop destGeo "features")) "bbox") VNull in
          let* geocoded :=
            geocode_loop w MAPBOX_TOKEN destinationQuery destBbox
              (array_slice0 candidates maxPlaces) [] in
          let deduped := dedupePlaces geocoded in
          Ok (Json 200
                {| destination_of :=
                     {| dest_query := destinationQuery; bbox := Some destBbox |};
                   places := deduped;
                   meta_of :=
                     {| generated_at := now w;
                        geocode_provider := Some "mapbox";
                        cache_hit := false |} |}).

(** [handler(req, res)]: the response sent, the [catch] block included. *)
Definition handler (w : world) (req : request) : response :=
  match handler_try w req with
  | Ok r => r
  | Throw e =>
      Send 500
        (if Str.is_empty (message_of e) then "Server error" else message_of e)
  end.

(** * Specifications

    The notions in which the properties below are stated. *)

(** Two numbers are the same up to the sign of zero. *)
Definition same_number (x y : number) : Prop :=
  x = y \/ Num.eqb x y = true.

(** Clamping to the unit interval, in the words of the specification: below
    0 gives 0, above 1 gives 1, anything else is kept. *)
Definition clamp_unit_spec (r : number) : number :=
  if SFltb r zero then zero
  else if SFltb one r then one
  else r.

(** Deduplication in the words of the specification: going through the
    places in arrival order, a place is kept when no place that arrived
    earlier has its key. [earlier] holds the places that arrived before. *)
Fixpoint first_per_key_from (earlier places : list place) : list place :=
  match places with
  | [] => []
  | p :: rest =>
      (if decide (dedupe_key p ∈ dedupe_key <$> earlier) then [] else [p])
      ++ first_per_key_from (earlier ++ [p]) rest
  end%list.

Definition first_per_key (places : list place) : list place :=
  first_per_key_from [] places.

(** [trip] and [options], as the handler takes them out of the body, and
    the effective [max_places]. *)
Definition trip_of (req : request) : value :=
  prop (or_else (body req) (VObj [])) "trip".

Definition options_of (req : request) : value :=
  prop (or_else (body req) (VObj [])) "options".

Definition maxPlaces_of (req : request) : result number :=
  clampInt (prop (options_of req) "max_places") five twenty_five fifteen.

(** The interests the handler passes on: the first twelve. *)
Definition interests_of (req : request) : list value :=
  match prop (trip_of req) "interests" with
  | VArr items => take 12 items
  | _ => []
  end.

(** The arguments with which the handler calls
    [getCandidatePlacesFromLLM]. *)
Definition llm_request_of (w : world) (req : request) (dq ask : string)
    (maxPlaces : number) : llm_request :=
  {| openaiKey := default "" (OPENAI_API_KEY w);
     model :=
       match OPENAI_MODEL w with
       | Some m => if Str.is_empty m then "gpt-4o-mini" else m
       | None => "gpt-4o-mini"
       end;
     llm_destinationQuery := dq;
     llm_interests := interests_of req;
     llm_ask := ask;
     llm_maxPlaces := maxPlaces |}.

(** The computation returns, it does not raise. *)
Definition returns {A : Type} (r : result A) : bool :=
  match r with Ok _ => true | Throw _ => false end.

(** The request passes everything that precedes the call of the chat
    endpoint: it is a POST, its destination is the non-blank string [dq],
    its [max_places] converts and is bounded to [maxPlaces], its [ask] trims
    to [ask], both credentials are set, and its interests convert to
    strings for the prompt. *)
Record accepted (w : world) (req : request) (dq ask : string)
    (maxPlaces : number) : Prop := {
  acc_method : method req = "POST";
  acc_destination :
    trim_method or_empty
      (or_else (prop (trip_of req) "destination_query") (VStr "")) = Ok dq;
  acc_not_blank : Str.is_empty dq = false;
  acc_max_places : maxPlaces_of req = Ok maxPlaces;
  acc_ask :
    trim_method or_empty
      (or_else (prop (trip_of req) "ask") (VStr "")) = Ok ask;
  acc_openai : unset (OPENAI_API_KEY w) = false;
  acc_mapbox : unset (MAPBOX_TOKEN w) = false;
  acc_interests : returns (Array_join ", " (interests_of req)) = true
}.

(** The candidates the handler reads in the reply. *)
Definition candidates_of (llmJson : value) : list value :=
  match prop llmJson "places" with
  | VArr items => items
  | _ => []
  end.

(** The bounding box the handler reads in the destination lookup. *)
Definition destBbox_of (destGeo : value) : value :=
  or_else (prop (index0 (prop destGeo "features")) "bbox") VNull.

(** The response without candidates, and the one after the loop. *)
Definition empty_response (w : world) (dq : string) : response :=
  Json 200
    {| destination_of := {| dest_query := dq; bbox := None |};
       places := [];
       meta_of :=
         {| generated_at := now w; geocode_provider := None;
            cache_hit := false |} |}.

Definition places_response (w : world) (dq : string) (destBbox : value)
    (geocoded : list place) : response :=
  Json 200
    {| destination_of := {| dest_query := dq; bbox := Some destBbox |};
       places := dedupePlaces geocoded;
       meta_of :=
         {| generated_at := now w; geocode_provider := Some "mapbox";
            cache_hit := false |} |}.

(** The response of the [catch] block. *)
Definition error_response (e : error) : response :=
  Send 500 (if Str.is_empty (message_of e) then "Server error" else message_of e).

(** The same world with another geocoding endpoint. *)
Definition with_mapbox (w : world) (geo : geocode_request -> fetched) : world :=
  {| openai := openai w;
     mapbox := geo;
     JSON_parse := JSON_parse w;
     now := now w;
     random_suffix := random_suffix w;
     OPENAI_API_KEY := OPENAI_API_KEY w;
     OPENAI_MODEL := OPENAI_MODEL w;
     MAPBOX_TOKEN := MAPBOX_TOKEN w |}.

(** The place was built from the top feature of a successful lookup, and
    its coordinates are the two entries of the [center] of that feature. *)
Definition located (w : world) (token : string) (destBbox : value) (p : place)
    : Prop :=
  exists (query : string) (r : value),
    mapboxGeocode w token query one "poi,neighborhood,place,address" destBbox
    = Ok r
    /\ truthy (index0 (prop r "features")) = true
    /\ prop (index0 (prop r "features")) "center"
       = VArr [Place.lng p; Place.lat p].

(** A finite numeric coordinate. *)
Definition finite_coordinate (v : value) : Prop :=
  exists n : number, v = VNum n /\ isFinite n = true.

(** The sanitized strings of the items, in their order; the first item
    that does not convert raises. *)
Fixpoint sanitize_all (items : list value) (maxItemLen : Z)
    : result (list string) :=
  match items with
  | [] => Ok []
  | item :: rest =>
      let* s := safeString item maxItemLen in
      let* l := sanitize_all rest maxItemLen in
      Ok (s :: l)
  end.

(** The strings a sanitized array keeps: those that are not empty. *)
Definition kept (texts : list string) : list string :=
  List.filter (fun s => negb (Str.is_empty s)) texts.

(** The categories, as a list. *)
Definition category_list : list string :=
  ["sight"; "museum"; "neighborhood"; "food"; "viewpoint"; "day_trip";
   "nature"; "activity"].

(** The shape of a slug: only the characters [a-z], [0-9] and the hyphen,
    never two hyphens in a row, and no hyphen first when [after_hyphen] is
    set (in particular, with [after_hyphen], no leading hyphen). *)
Fixpoint slug_shape (after_hyphen : bool) (s : string) : bool :=
  match s with
  | EmptyString => true
  | String c s' =>
      if is_alnum c then slug_shape false s'
      else Ascii.eqb c "-" && negb after_hyphen && slug_shape true s'
  end.

(** The character occurs in the string. *)
Fixpoint has_char (c : ascii) (s : string) : bool :=
  match s with
  | EmptyString => false
  | String a s' => Ascii.eqb a c || has_char c s'
  end.

(** The text the handler reads in the body of the chat completion. *)
Definition content_of (data : value) : value :=
  or_else (prop (prop (index0 (prop data "choices")) "message") "content")
    (VStr "").

(** The statuses the handler answers with. *)
Definition handler_status (r : response) : Z :=
  match r with Send status _ | Json status _ => status end.

(** The bounding of [clampInt] with the bounds of the handler, on a
    number. *)
Definition bounded_places (n : number) : number :=
  if negb (isFinite n) then fifteen else Math_max five (Math_min twenty_five n).

(** A sanitized string: trimmed, and no longer than a bound. *)
Definition sanitized (maxLen : Z) (s : string) : Prop :=
  Str.trim s = s /\ Str.length s <= maxLen.

(** A sanitized list: at most [maxItems] strings, each of them sanitized
    and not empty. *)
Definition sanitized_list (maxItems maxItemLen : Z) (l : list string) : Prop :=
  Z.of_nat (List.length l) <= maxItems
  /\ Forall (fun s => Str.is_empty s = false /\ sanitized maxItemLen s) l.

(** The shape of an emitted place: a non-empty trimmed name, a slug for
    [id], a category and a time of day of the two lists, sanitized texts
    and lists within their bounds, a duration that is [null] or lies in
    [0.5, 12], and a confidence that lies in [0, 1] unless it is NaN. *)
Record well_formed (p : place) : Prop := {
  wf_name : Str.is_empty (Place.name p) = false
            /\ Str.trim (Place.name p) = Place.name p;
  wf_id : slug_shape true (Place.id p) = true
          /\ 1 <= Str.length (Place.id p) <= 64;
  wf_category : Place.category p ∈ category_list;
  wf_time_of_day : Place.best_time_of_day p ∈ times_of_day;
  wf_why_go : sanitized 260 (Place.why_go p);
  wf_highlights : sanitized_list 6 80 (Place.highlights p);
  wf_tags : sanitized_list 8 30 (Place.tags p);
  wf_hours :
    Place.time_needed_hours p = VNull
    \/ exists x, Place.time_needed_hours p = VNum x
                 /\ Num.leb lit_0_5 x = true /\ Num.leb x lit_12 = true;
  wf_confidence :
    is_nan (Place.confidence p) = true
    \/ (Num.leb zero (Place.confidence p) = true
        /\ Num.leb (Place.confidence p) one = true)
}.

(** * Sample data

    Concrete places, worlds and requests at which the properties are
    exercised. *)

(** The number written [0.9]. *)
Definition lit_0_9 : number := Eval vm_compute in Prim2SF 0.9%float.

(** The two numbers of the centre [-9.2, 38.7]. *)
Definition lit_lng : number := Eval vm_compute in Prim2SF (-9.2)%float.
Definition lit_lat : number := Eval vm_compute in Prim2SF 38.7%float.

(** A place with the given [id] and name, at the centre [-9.2, 38.7]. *)
Definition sample_place (id name : string) : place :=
  {| Place.id := id;
     Place.name := name;
     Place.category := "sight";
     Place.lat := VNum lit_lat;
     Place.lng := VNum lit_lng;
     Place.highlights := [];
     Place.why_go := "";
     Place.time_needed_hours := VNull;
     Place.best_time_of_day := "afternoon";
     Place.tags := [];
     Place.confidence := lit_0_65 |}.

(** A string between double quotes. *)
Definition quoted (s : string) : string :=
  let q := String (ascii_of_nat 34) EmptyString in q ++ s ++ q.

(** The JSON text of a value made of objects, arrays and plain strings. *)
Fixpoint sample_json (v : value) : string :=
  match v with
  | VStr s => quoted s
  | VArr items =>
      "[" ++ (fix join (l : list value) : string :=
                match l with
                | [] => EmptyString
                | [x] => sample_json x
                | x :: l' => sample_json x ++ "," ++ join l'
                end) items ++ "]"
  | VObj fields =>
      "{" ++ (fix join (l : list (string * value)) : string :=
                match l with
                | [] => EmptyString
                | [(k, x)] => quoted k ++ ":" ++ sample_json x
                | (k, x) :: l' => quoted k ++ ":" ++ sample_json x ++ "," ++ join l'
                end) fields ++ "}"
  | _ => "null"
  end.

(** A response [200 OK] with a JSON body. *)
Definition ok_response (json : value) : fetched :=
  Response true (Num.of_Z 200) "OK" "" (Ok json).

Definition sample_world (reply : value) (geo : geocode_request -> fetched)
    : world :=
  {| openai := fun _ =>
       ok_response
         (VObj [("choices",
                 VArr [VObj [("message",
                              VObj [("role", VStr "assistant");
                                    ("content", VStr (sample_json reply))])]])]);
     mapbox := geo;
     JSON_parse := fun s =>
       if String.eqb s (sample_json reply) then Some reply else None;
     now := "2025-01-01T00:00:00.000Z";
     random_suffix := "8f3a2c1d4e5b6";
     OPENAI_API_KEY := Some "sk-test";
     OPENAI_MODEL := None;
     MAPBOX_TOKEN := Some "pk.test" |}.

(** [POST] of [{ trip: { destination_query: "Lisbon" } }] *)
Definition lisbon_request : request :=
  {| method := "POST";
     body := VObj [("trip", VObj [("destination_query", VStr "Lisbon")])] |}.

(** A feature of type "poi" at that centre, without relevance. *)
Definition poi_feature : value :=
  VObj [("center", VArr [VNum lit_lng; VNum lit_lat]);
        ("place_type", VArr [VStr "poi"])].

(** The geocoder knows no Atlantis and finds everything else at the same
    point of interest. *)
Definition atlantis_geo (rq : geocode_request) : fetched :=
  if String.eqb (query rq) "Atlantis, Lisbon"
  then ok_response (VObj [("features", VArr [])])
  else ok_response (VObj [("features", VArr [poi_feature])]).

(** The language model proposes Atlantis and the Belem Tower. *)
Definition atlantis_world : world :=
  sample_world
    (VObj [("places",
            VArr [VObj [("name", VStr "Atlantis")];
                  VObj [("name", VStr "Belem Tower")]])])
    atlantis_geo.

(** The place emitted for the Belem Tower. *)
Definition belem_place : place :=
  {| Place.id := "belem-tower";
     Place.name := "Belem Tower";
     Place.category := "sight";
     Place.lat := VNum lit_lat;
     Place.lng := VNum lit_lng;
     Place.highlights := [];
     Place.why_go := "";
     Place.time_needed_hours := VNull;
     Place.best_time_of_day := "afternoon";
     Place.tags := [];
     Place.confidence := lit_0_78 |}.

(** The geocoder answers every lookup with a feature whose [center] is
    [[null, null]]. *)
Definition null_center_world : world :=
  sample_world
    (VObj [("places", VArr [VObj [("name", VStr "Belem Tower")]])])
    (fun _ =>
       ok_response
         (VObj [("features", VArr [VObj [("center", VArr [VNull; VNull])]])])).

(** "Belém Tower", with the code unit U+00E9 for its [é]. *)
Definition belem_tower : string :=
  "Bel" ++ String (ascii_of_nat 233) "m Tower".

(** A world whose chat endpoint answers [fetched]. *)
Definition llm_world (answer : fetched) (parse : string -> option value)
    : world :=
  {| openai := fun _ => answer;
     mapbox := fun _ => FetchFails (Error "unreachable");
     JSON_parse := parse;
     now := "2025-01-01T00:00:00.000Z";
     random_suffix := "8f3a2c1d4e5b6";
     OPENAI_API_KEY := Some "sk-test";
     OPENAI_MODEL := Some "gpt-4o";
     MAPBOX_TOKEN := Some "pk.test" |}.

(** A world without credentials. *)
Definition bare_world : world :=
  {| openai := fun _ => FetchFails (Error "unreachable");
     mapbox := fun _ => FetchFails (Error "unreachable");
     JSON_parse := fun _ => None;
     now := "2025-01-01T00:00:00.000Z";
     random_suffix := "8f3a2c1d4e5b6";
     OPENAI_API_KEY := None;
     OPENAI_MODEL := None;
     MAPBOX_TOKEN := Some "pk.test" |}.

(** The geocoder is down for the Castle and finds everything else. *)
Definition castle_geo (rq : geocode_request) : fetched :=
  if String.eqb (query rq) "Castle, Lisbon"
  then Response false (Num.of_Z 429) "Too Many Requests" "" (Ok VNull)
  else ok_response (VObj [("features", VArr [poi_feature])]).

Definition castle_world : world :=
  sample_world
    (VObj [("places",
            VArr [VObj [("name", VStr "Belem Tower")];
                  VObj [("name", VStr "Castle")];
                  VObj [("name", VStr "Alfama")]])])
    castle_geo.

(** The language model proposes the Belem Tower and an Alfama whose
    category is an object with an own [toString] property; the geocoder
    finds everything. *)
Definition unconvertible_world : world :=
  sample_world
    (VObj [("places",
            VArr [VObj [("name", VStr "Belem Tower")];
                  VObj [("name", VStr "Alfama");
                        ("category", VObj [("toString", VStr "food")])]])])
    (fun _ => ok_response (VObj [("features", VArr [poi_feature])])).

(** * Properties *)

(** ** Comparison, [Math.min], [Math.max] and [clamp] *)

Section NumFacts.

Implicit Types a b n lo hi : number.

Lemma SFcompare_nan_r a : SFcompare a NaN = None.
Proof. by destruct a. Qed.

Lemma SFcompare_some a b :
  is_nan a = false -> is_nan b = false -> exists c, SFcompare a b = Some c.
Proof. destruct a, b; simpl; intros; try discriminate; eauto. Qed.

Lemma SFcompare_is_some a b c :
  SFcompare a b = Some c -> is_nan a = false /\ is_nan b = false.
Proof. by destruct a, b. Qed.

Lemma SFcompare_refl a : is_nan a = false -> SFcompare a a = Some Eq.
Proof.
  destruct a as [s|s| |s m e]; simpl; intros H; try discriminate.
  - reflexivity.
  - by destruct s.
  - rewrite Z.compare_refl, Pos.compare_cont_refl. by destruct s.
Qed.

Lemma SFcompare_antisym a b :
  SFcompare b a = option_map CompOpp (SFcompare a b).
Proof.
  destruct a as [s|s| |s m e], b as [s'|s'| |s' m' e']; simpl;
    try reflexivity; try (by destruct s); try (by destruct s');
    try (by destruct s, s').
  rewrite (Z.compare_antisym e e').
  destruct s, s'; simpl; try reflexivity;
    destruct (e ?= e'); simpl; try reflexivity;
    by rewrite (Pos.compare_cont_antisym m m' Eq).
Qed.

Lemma leb_refl a : is_nan a = false -> Num.leb a a = true.
Proof. intros H. unfold Num.leb, SFleb. by rewrite SFcompare_refl. Qed.

Lemma Math_min_nan_l b : Math_min NaN b = NaN.
Proof. reflexivity. Qed.

Lemma Math_min_nan_r a : Math_min a NaN = NaN.
Proof. unfold Math_min. by rewrite SFcompare_nan_r. Qed.

Lemma Math_max_nan_l b : Math_max NaN b = NaN.
Proof. unfold Math_max. by rewrite SFcompare_nan_r. Qed.

Lemma Math_max_nan_r a : Math_max a NaN = NaN.
Proof. reflexivity. Qed.

Lemma Math_min_cases a b :
  is_nan a = false -> is_nan b = false -> Math_min a b = a \/ Math_min a b = b.
Proof.
  intros Ha Hb. unfold Math_min.
  destruct (SFcompare_some a b Ha Hb) as [c ->].
  destruct c; auto. destruct (is_neg_zero a); auto.
Qed.

Lemma Math_max_cases a b :
  is_nan a = false -> is_nan b = false -> Math_max a b = a \/ Math_max a b = b.
Proof.
  intros Ha Hb. unfold Math_max.
  destruct (SFcompare_some b a Hb Ha) as [c ->].
  destruct c; auto. destruct (is_neg_zero a); auto.
Qed.

Lemma Math_min_diag a : Math_min a a = a.
Proof.
  destruct (is_nan a) eqn:Ha; [by destruct a|].
  unfold Math_min. rewrite SFcompare_refl by done. by destruct (is_neg_zero a).
Qed.

Lemma Math_max_diag a : Math_max a a = a.
Proof.
  destruct (is_nan a) eqn:Ha; [by destruct a|].
  unfold Math_max. rewrite SFcompare_refl by done. by destruct (is_neg_zero a).
Qed.

Lemma neg_zero_eq a b : is_neg_zero a = true -> is_neg_zero b = true -> a = b.
Proof. by destruct a as [[]| | |], b as [[]| | |]. Qed.

(** If the minimum of two numbers is the first, their maximum is the
    second. *)
Lemma Math_min_l_max a b :
  is_nan a = false -> Math_min a b = a -> Math_max b a = b.
Proof.
  unfold Math_min, Math_max. intros Ha.
  destruct (SFcompare a b) as [[]|] eqn:Hc; intros H; try congruence.
  - destruct (is_neg_zero a) eqn:Na, (is_neg_zero b) eqn:Nb; try congruence.
    by apply neg_zero_eq.
  - subst a. by destruct b.
Qed.

(** What a minimum or a maximum that is its second argument tells. *)
Lemma Math_min_r_leb a b :
  is_nan a = false -> is_nan b = false -> Math_min a b = b -> Num.leb b a = true.
Proof.
  intros Ha Hb. unfold Math_min, Num.leb, SFleb.
  rewrite (SFcompare_antisym a b).
  destruct (SFcompare_some a b Ha Hb) as [c Hc]. rewrite Hc. simpl.
  destruct c; try done. intros ->. by rewrite SFcompare_refl in Hc.
Qed.

Lemma Math_max_r_leb a b :
  is_nan a = false -> is_nan b = false -> Math_max a b = b -> Num.leb a b = true.
Proof.
  intros Ha Hb. unfold Math_max, Num.leb, SFleb.
  rewrite (SFcompare_antisym b a).
  destruct (SFcompare_some b a Hb Ha) as [c Hc]. rewrite Hc. simpl.
  destruct c; try done. intros <-. by rewrite SFcompare_refl in Hc.
Qed.

Lemma clamp_nan n lo hi :
  is_nan n || is_nan lo || is_nan hi = true -> clamp n lo hi = NaN.
Proof.
  unfold clamp. intros H.
  destruct n; try (by rewrite Math_min_nan_r, Math_max_nan_r);
    destruct hi; try (by rewrite Math_min_nan_l, Math_max_nan_r);
    destruct lo; try (by rewrite Math_max_nan_l); by simpl in H.
Qed.

(** [clamp] is idempotent, whatever its bounds. *)
Lemma clamp_idempotent n lo hi :
  clamp (clamp n lo hi) lo hi = clamp n lo hi.
Proof.
  destruct (is_nan n || is_nan lo || is_nan hi) eqn:Hnan.
  { rewrite (clamp_nan n) by done. apply clamp_nan. reflexivity. }
  apply orb_false_elim in Hnan as [Hnan Hhi].
  apply orb_false_elim in Hnan as [Hn Hlo].
  unfold clamp.
  destruct (Math_min_cases hi n Hhi Hn) as [Hr|Hr]; rewrite Hr.
  - destruct (Math_max_cases lo hi Hlo Hhi) as [Hc|Hc]; rewrite Hc.
    + destruct (Math_min_cases hi lo Hhi Hlo) as [Hm|Hm]; rewrite Hm.
      * by apply Math_min_l_max.
      * apply Math_max_diag.
    + by rewrite Math_min_diag.
  - destruct (Math_max_cases lo n Hlo Hn) as [Hc|Hc]; rewrite Hc.
    + destruct (Math_min_cases hi lo Hhi Hlo) as [Hm|Hm]; rewrite Hm.
      * by apply Math_min_l_max.
      * apply Math_max_diag.
    + by rewrite Hr.
Qed.

(** The result of [clamp] is one of its three arguments, or NaN. *)
Lemma clamp_cases n lo hi :
  is_nan n = false -> is_nan lo = false -> is_nan hi = false ->
  clamp n lo hi = lo \/ clamp n lo hi = hi \/ clamp n lo hi = n.
Proof.
  intros Hn Hlo Hhi. unfold clamp.
  destruct (Math_min_cases hi n Hhi Hn) as [Hr|Hr]; rewrite Hr.
  - destruct (Math_max_cases lo hi Hlo Hhi); auto.
  - destruct (Math_max_cases lo n Hlo Hn); auto.
Qed.

(** With ordered bounds, [clamp] lands between them. *)
Lemma clamp_between n lo hi :
  is_nan n = false -> Num.leb lo hi = true ->
  Num.leb lo (clamp n lo hi) = true /\ Num.leb (clamp n lo hi) hi = true.
Proof.
  intros Hn Hle.
  assert (is_nan lo = false /\ is_nan hi = false) as [Hlo Hhi].
  { unfold Num.leb, SFleb in Hle.
    destruct (SFcompare lo hi) eqn:Hc; [|done]. by eapply SFcompare_is_some. }
  unfold clamp.
  destruct (Math_min_cases hi n Hhi Hn) as [Hr|Hr]; rewrite Hr.
  - destruct (Math_max_cases lo hi Hlo Hhi) as [Hc|Hc]; rewrite Hc;
      auto using leb_refl.
  - destruct (Math_max_cases lo n Hlo Hn) as [Hc|Hc]; rewrite Hc;
      auto using leb_refl, Math_min_r_leb, Math_max_r_leb.
Qed.

End NumFacts.

(** ** [geocodeConfidence] *)

Lemma clamp_unit r : same_number (clamp r zero one) (clamp_unit_spec r).
Proof.
  destruct r as [[]|[]| |[] m e];
    try (left; reflexivity); try (right; reflexivity).
  left.
  assert (Hz : SFcompare (S754_finite false m e) zero = Some Gt) by reflexivity.
  assert (Ho : SFcompare one zero = Some Gt) by reflexivity.
  remember (S754_finite false m e) as x eqn:Hx.
  unfold clamp, clamp_unit_spec, Math_min, Math_max, SFltb.
  rewrite Hz. destruct (SFcompare one x) as [[]|] eqn:Hc; simpl;
    rewrite ?Hz, ?Ho; try reflexivity.
  subst x. discriminate Hc.
Qed.

Lemma includes_array (x : string) (items : list value) :
  existsb (fun v => match v with VStr s => String.eqb s x | _ => false end) items
  = true <-> VStr x ∈ items.
Proof.
  rewrite existsb_exists. split.
  - intros (v & Hin & Hv). destruct v; try discriminate.
    apply String.eqb_eq in Hv as ->. by apply list_elem_of_In.
  - intros Hin. exists (VStr x). split; [by apply list_elem_of_In|].
    apply String.eqb_refl.
Qed.

Lemma includes_array_not (x : string) (items : list value) :
  existsb (fun v => match v with VStr s => String.eqb s x | _ => false end) items
  = false <-> VStr x ∉ items.
Proof.
  rewrite <- includes_array. by destruct (existsb _ items).
Qed.

(** C4. If the feature carries a numeric relevance, [geocodeConfidence]
    returns it clamped to [0,1]: 0 below 0, 1 above 1, the value itself in
    between (up to the sign of zero). Otherwise, for a feature whose
    [place_type] is absent or an array, it returns 0.78 if the array has
    "poi", 0.72 if it has "neighborhood" and not "poi", and 0.65 in every
    other case; and likewise for a [place_type] that is a string in which
    "poi" or "neighborhood" occurs. *)
Theorem geocodeConfidence_spec (feature : value) :
  (forall r, prop feature "relevance" = VNum r ->
     geocodeConfidence feature = Ok (clamp r zero one)
     /\ same_number (clamp r zero one) (clamp_unit_spec r))
  /\ (forall items,
        (forall r, prop feature "relevance" <> VNum r) ->
        or_else (prop feature "place_type") (VArr []) = VArr items ->
        (VStr "poi" ∈ items -> geocodeConfidence feature = Ok lit_0_78)
        /\ (VStr "poi" ∉ items -> VStr "neighborhood" ∈ items ->
            geocodeConfidence feature = Ok lit_0_72)
        /\ (VStr "poi" ∉ items -> VStr "neighborhood" ∉ items ->
            geocodeConfidence feature = Ok lit_0_65))
  /\ (forall s,
        (forall r, prop feature "relevance" <> VNum r) ->
        prop feature "place_type" = VStr s ->
        geocodeConfidence feature =
        Ok (if Str.includes s "poi" then lit_0_78
            else if Str.includes s "neighborhood" then lit_0_72
            else lit_0_65)).
Proof.
  assert (Hnorel : (forall r, prop feature "relevance" <> VNum r) ->
                   geocodeConfidence feature =
                   let types := or_else (prop feature "place_type") (VArr []) in
                   let* is_poi := includes_method types "poi" in
                   if is_poi then Ok lit_0_78
                   else
                     let* is_nbh := includes_method types "neighborhood" in
                     if is_nbh then Ok lit_0_72 else Ok lit_0_65).
  { intros Hrel. unfold geocodeConfidence.
    destruct (prop feature "relevance") as [| | |r| | |] eqn:Hp; try reflexivity.
    by destruct (Hrel r). }
  split; [|split].
  - intros r Hr. split; [|apply clamp_unit].
    unfold geocodeConfidence. by rewrite Hr.
  - intros items Hrel Htypes. rewrite (Hnorel Hrel), Htypes. simpl.
    repeat split.
    + intros Hpoi. apply includes_array in Hpoi. by rewrite Hpoi.
    + intros Hpoi Hnbh. apply includes_array_not in Hpoi.
      apply includes_array in Hnbh. by rewrite Hpoi, Hnbh.
    + intros Hpoi Hnbh. apply includes_array_not in Hpoi.
      apply includes_array_not in Hnbh. by rewrite Hpoi, Hnbh.
  - intros t Hrel Htypes. rewrite (Hnorel Hrel), Htypes.
    unfold or_else. destruct (truthy (VStr t)) eqn:Ht; simpl.
    + destruct (Str.includes t "poi"); [reflexivity|]. simpl.
      by destruct (Str.includes t "neighborhood").
    + by destruct t.
Qed.

(** Outside the type of a geocode feature: a [place_type] that is neither
    absent, nor an array, nor a string has no [includes] method, and the
    call raises. *)
Example geocodeConfidence_untyped_place_type :
  geocodeConfidence (VObj [("place_type", VBool true)])
  = Throw (TypeError "types.includes is not a function").
Proof. reflexivity. Qed.

(** A feature with relevance 0.9 has confidence 0.9, and a feature of type
    "poi" without relevance has confidence 0.78. *)
Lemma geocodeConfidence_spec_witness :
  geocodeConfidence (VObj [("relevance", VNum lit_0_9)]) = Ok lit_0_9
  /\ geocodeConfidence poi_feature = Ok lit_0_78.
Proof.
  split.
  - destruct (geocodeConfidence_spec (VObj [("relevance", VNum lit_0_9)]))
      as (H & _ & _).
    destruct (H lit_0_9) as [H1 _]; [reflexivity|]. exact H1.
  - destruct (geocodeConfidence_spec poi_feature) as (_ & H & _).
    destruct (H [VStr "poi"]) as [H1 _].
    + intros r Hr. discriminate Hr.
    + reflexivity.
    + apply H1. apply list_elem_of_here.
Defined.

(** ** Conversions *)

(** Induction on a value, with the items of an array. *)
Lemma value_items_ind (P : value -> Prop) :
  P VUndefined -> P VNull -> (forall b, P (VBool b)) -> (forall n, P (VNum n)) ->
  (forall s, P (VStr s)) ->
  (forall items, Forall P items -> P (VArr items)) ->
  (forall fields, P (VObj fields)) ->
  forall v, P v.
Proof.
  intros Hu Hn Hb Hnum Hs Ha Ho. fix IH 1.
  intros [| |b|n|s|items|fields];
    [exact Hu|exact Hn|apply Hb|apply Hnum|apply Hs| |apply Ho].
  apply Ha. revert items. fix IHl 1.
  intros [|x l]; constructor; [apply IH|apply IHl].
Qed.

(** The string of an array is the join of its items with commas. *)
Lemma ToString_array (items : list value) :
  ToString (VArr items) = Array_join "," items.
Proof.
  induction items as [|x [|y l] IH]; [reflexivity|reflexivity|].
  change (ToString (VArr (x :: y :: l)))
    with (let* a := match x with
                    | VUndefined | VNull => Ok EmptyString
                    | _ => ToString x
                    end in
          let* b := ToString (VArr (y :: l)) in Ok (a ++ "," ++ b)).
  by rewrite IH.
Qed.

(** A join raises what the conversion of one of its items raises. *)
Lemma Array_join_throw (sep : string) (items : list value) (e : error) :
  Array_join sep items = Throw e ->
  exists x, x ∈ items /\ ToString x = Throw e.
Proof.
  induction items as [|x [|y l] IH].
  - discriminate.
  - intros H. exists x. split; [apply list_elem_of_here|].
    by destruct x.
  - change (Array_join sep (x :: y :: l))
      with (let* a := match x with
                      | VUndefined | VNull => Ok EmptyString
                      | _ => ToString x
                      end in
            let* b := Array_join sep (y :: l) in Ok (a ++ sep ++ b)).
    destruct (match x with
              | VUndefined | VNull => Ok EmptyString
              | _ => ToString x
              end) as [a|e'] eqn:Hx; cbn [bind].
    + destruct (Array_join sep (y :: l)) as [b|e'] eqn:Hl; cbn [bind];
        [discriminate|].
      intros [= ->]. destruct (IH eq_refl) as (z & Hz & Hthrow).
      exists z. split; [by apply list_elem_of_further|done].
    + intros [= ->]. exists x. split; [apply list_elem_of_here|].
      by destruct x.
Qed.

(** The only error of a conversion to a string. *)
Lemma ToString_throw (v : value) (e : error) :
  ToString v = Throw e -> e = not_primitive.
Proof.
  revert e. induction v as [| |b|n|s|items IH|fields] using value_items_ind;
    intros e; try discriminate.
  - rewrite ToString_array. intros H.
    destruct (Array_join_throw _ _ _ H) as (x & Hx & Hthrow).
    rewrite Forall_forall in IH. by eapply IH.
  - simpl. destruct (has_own "toString" fields); [|discriminate].
    by intros [= <-].
Qed.

(** A number converts exactly when the string does. *)
Lemma ToNumber_throw (v : value) (e : error) :
  ToNumber v = Throw e <-> ToString v = Throw e.
Proof.
  destruct v as [| |b|n|s|items|fields]; try (split; discriminate);
    unfold ToNumber; destruct (ToString _); cbn [bind];
    split; congruence.
Qed.

(** [String(r || "")] of a string is the string. *)
Lemma ToString_or_empty (r : string) :
  ToString (or_else (VStr r) (VStr "")) = Ok r.
Proof. by destruct r. Qed.

(** ** [clampInt] and [max_places] *)

(** C5. The [max_places] inputs 1, 5, 15, 25, 99, "abc" and null give 5, 5,
    15, 25, 25, 15 and 15; in general a parse that is not finite gives the
    default 15, a finite one is clamped, and the result always lies in
    [5,25]. *)
Theorem max_places_bounding :
  clampInt (VNum (Num.of_Z 1)) five twenty_five fifteen = Ok five
  /\ clampInt (VNum (Num.of_Z 5)) five twenty_five fifteen = Ok five
  /\ clampInt (VNum (Num.of_Z 15)) five twenty_five fifteen = Ok fifteen
  /\ clampInt (VNum (Num.of_Z 25)) five twenty_five fifteen = Ok twenty_five
  /\ clampInt (VNum (Num.of_Z 99)) five twenty_five fifteen = Ok twenty_five
  /\ clampInt (VStr "abc") five twenty_five fifteen = Ok fifteen
  /\ clampInt VNull five twenty_five fifteen = Ok fifteen
  /\ (forall v : value,
        clampInt v five twenty_five fifteen =
        let* n := parseInt v in
        Ok (if isFinite n then clamp n five twenty_five else fifteen))
  /\ (forall (v : value) (n : number),
        clampInt v five twenty_five fifteen = Ok n ->
        Num.leb five n = true /\ Num.leb n twenty_five = true).
Proof.
  do 7 (split; [vm_compute; reflexivity|]).
  split.
  - intros v. unfold clampInt, clamp.
    destruct (parseInt v) as [n|e]; cbn [bind]; [|reflexivity].
    by destruct (isFinite n).
  - intros v n. unfold clampInt.
    destruct (parseInt v) as [m|e]; cbn [bind]; [|discriminate].
    destruct (isFinite m) eqn:Hf; simpl; intros [= <-].
    + apply (clamp_between m five twenty_five); [|reflexivity].
      by destruct m.
    + split; reflexivity.
Qed.

Lemma max_places_bounding_witness :
  Num.leb five twenty_five = true /\ Num.leb twenty_five twenty_five = true.
Proof.
  destruct max_places_bounding as (_ & _ & _ & _ & H99 & _ & _ & _ & H).
  exact (H (VNum (Num.of_Z 99)) twenty_five H99).
Defined.

(** ** The sanitizers *)

Section StringFacts.

Implicit Types s r : string.

Lemma trimEnd_cons c s :
  Str.trimEnd (String c s) =
  match Str.trimEnd s with
  | EmptyString => if Str.is_ws c then EmptyString else String c EmptyString
  | String d r => String c (String d r)
  end.
Proof. reflexivity. Qed.

Lemma trimEnd_idempotent s : Str.trimEnd (Str.trimEnd s) = Str.trimEnd s.
Proof.
  induction s as [|c s IH]; [reflexivity|].
  rewrite (trimEnd_cons c s).
  destruct (Str.trimEnd s) as [|d r] eqn:Hs.
  - destruct (Str.is_ws c) eqn:Hc; [reflexivity|].
    rewrite trimEnd_cons. simpl. by rewrite Hc.
  - rewrite trimEnd_cons. by rewrite IH.
Qed.

Lemma trimStart_head s :
  Str.trimStart s = EmptyString
  \/ exists c r, Str.trimStart s = String c r /\ Str.is_ws c = false.
Proof.
  induction s as [|c s IH]; [by left|]. simpl.
  destruct (Str.is_ws c) eqn:Hc; [exact IH|]. right. eauto.
Qed.

Lemma trimEnd_head c s :
  Str.is_ws c = false -> exists r, Str.trimEnd (String c s) = String c r.
Proof.
  intros Hc. simpl. destruct (Str.trimEnd s); [|eauto]. rewrite Hc. eauto.
Qed.

Lemma trim_idempotent s : Str.trim (Str.trim s) = Str.trim s.
Proof.
  unfold Str.trim.
  destruct (trimStart_head s) as [->|(c & r & -> & Hc)]; [reflexivity|].
  destruct (trimEnd_head c r Hc) as [r' Hr]. rewrite Hr at 1.
  simpl Str.trimStart. rewrite Hc, <- Hr. apply trimEnd_idempotent.
Qed.

Lemma length_trimStart s :
  (String.length (Str.trimStart s) <= String.length s)%nat.
Proof.
  induction s as [|c s IH]; simpl; [lia|]. destruct (Str.is_ws c); simpl; lia.
Qed.

Lemma length_trimEnd s :
  (String.length (Str.trimEnd s) <= String.length s)%nat.
Proof.
  induction s as [|c s IH]; simpl; [lia|].
  destruct (Str.trimEnd s); [destruct (Str.is_ws c)|]; simpl in *; lia.
Qed.

Lemma length_trim s : Str.length (Str.trim s) <= Str.length s.
Proof.
  unfold Str.length, Str.trim.
  pose proof (length_trimEnd (Str.trimStart s)).
  pose proof (length_trimStart s). lia.
Qed.

Lemma length_substring0 (n : nat) s :
  (String.length (substring 0 n s) <= n)%nat.
Proof.
  revert s. induction n as [|n IH]; intros [|c s]; simpl; try lia.
  specialize (IH s). lia.
Qed.

(** A slice from the start up to a non-negative index is no longer than
    the index. *)
Lemma length_slice0 s (k : Z) : 0 <= k -> Str.length (Str.slice s 0 k) <= k.
Proof.
  intros Hk. unfold Str.slice, Str.clamp_index.
  assert (Hlen : 0 <= Str.length s) by (unfold Str.length; lia).
  replace (0 <? 0) with false by reflexivity.
  replace (k <? 0) with false by lia.
  rewrite (Z.min_l 0) by lia. change (Z.to_nat 0) with 0%nat.
  unfold Str.length at 1.
  pose proof (length_substring0
                (Z.to_nat (Z.max (Z.min k (Str.length s) - 0) 0)) s).
  lia.
Qed.

Lemma is_empty_true s : Str.is_empty s = true -> s = EmptyString.
Proof. by destruct s. Qed.

End StringFacts.

(** What the four sanitizers of strings start from: [String(v || "")]. *)
Lemma safeString_text (v : value) (maxLen : Z) (t : string) :
  ToString (or_else v (VStr "")) = Ok t ->
  safeString v maxLen =
  Ok (if Str.is_empty (Str.trim t) then ""
      else if maxLen <? Str.length (Str.trim t)
           then Str.trim (Str.slice (Str.trim t) 0 (maxLen - 1))
           else Str.trim t).
Proof.
  intros Ht. unfold safeString. rewrite Ht. cbn [bind].
  destruct (Str.is_empty (Str.trim t)); [reflexivity|].
  by destruct (maxLen <? Str.length (Str.trim t)).
Qed.

Lemma safeEnum_text (v : value) (allowed : list string) (fallback t : string) :
  ToString (or_else v (VStr "")) = Ok t ->
  safeEnum v allowed fallback =
  Ok (if existsb (String.eqb (Str.trim t)) allowed then Str.trim t else fallback).
Proof.
  intros Ht. unfold safeEnum. rewrite Ht. cbn [bind].
  by destruct (existsb _ allowed).
Qed.

Lemma safeCategory_text (v : value) (t : string) :
  ToString (or_else v (VStr "")) = Ok t ->
  safeCategory v =
  Ok (if decide (Str.trim t ∈ categories) then Str.trim t else "sight").
Proof.
  intros Ht. unfold safeCategory. rewrite Ht. cbn [bind].
  by destruct (decide _).
Qed.

(** The sanitizers raise what the conversion raises. *)
Lemma safeString_throw (v : value) (maxLen : Z) (e : error) :
  ToString (or_else v (VStr "")) = Throw e -> safeString v maxLen = Throw e.
Proof. intros Ht. unfold safeString. by rewrite Ht. Qed.

Lemma safeEnum_throw (v : value) (allowed : list string) (fallback : string)
    (e : error) :
  ToString (or_else v (VStr "")) = Throw e ->
  safeEnum v allowed fallback = Throw e.
Proof. intros Ht. unfold safeEnum. by rewrite Ht. Qed.

Lemma safeCategory_throw (v : value) (e : error) :
  ToString (or_else v (VStr "")) = Throw e -> safeCategory v = Throw e.
Proof. intros Ht. unfold safeCategory. by rewrite Ht. Qed.

(** [safeString] leaves alone a trimmed string that is short enough. *)
Lemma safeString_fixed (r : string) (maxLen : Z) :
  Str.trim r = r -> Str.length r <= maxLen -> safeString (VStr r) maxLen = Ok r.
Proof.
  intros Ht Hl. rewrite (safeString_text _ _ r) by apply ToString_or_empty.
  rewrite Ht.
  destruct (Str.is_empty r) eqn:He; [by apply is_empty_true in He; subst|].
  by replace (maxLen <? Str.length r) with false by lia.
Qed.

(** With a bound of at least 1, what [safeString] returns is trimmed and
    within the bound. *)
Lemma safeString_returns (v : value) (maxLen : Z) (s : string) :
  1 <= maxLen -> safeString v maxLen = Ok s ->
  Str.trim s = s /\ Str.length s <= maxLen.
Proof.
  intros Hm. unfold safeString.
  destruct (ToString (or_else v (VStr ""))) as [t|e]; cbn [bind];
    [|discriminate].
  destruct (Str.is_empty (Str.trim t)).
  { intros [= <-]. split; [reflexivity|]. vm_compute Str.length. lia. }
  destruct (maxLen <? Str.length (Str.trim t)) eqn:Hlt; intros [= <-].
  - split; [apply trim_idempotent|].
    etrans; [apply length_trim|]. etrans; [apply length_slice0; lia|]. lia.
  - apply Z.ltb_ge in Hlt. split; [apply trim_idempotent|lia].
Qed.

Lemma safeString_idempotent (v : value) (maxLen : Z) :
  1 <= maxLen ->
  (let* s := safeString v maxLen in safeString (VStr s) maxLen)
  = safeString v maxLen.
Proof.
  intros Hm. destruct (safeString v maxLen) as [s|e] eqn:Hs; cbn [bind];
    [|reflexivity].
  destruct (safeString_returns v maxLen s Hm Hs). by apply safeString_fixed.
Qed.

Lemma safeEnum_idempotent (v : value) (allowed : list string) (fallback : string) :
  Str.trim fallback = fallback ->
  (let* s := safeEnum v allowed fallback in safeEnum (VStr s) allowed fallback)
  = safeEnum v allowed fallback.
Proof.
  intros Hf. destruct (ToString (or_else v (VStr ""))) as [t|e] eqn:Ht.
  - rewrite (safeEnum_text v allowed fallback t Ht). cbn [bind].
    assert (Hs : Str.trim (Str.trim t) = Str.trim t) by apply trim_idempotent.
    destruct (existsb (String.eqb (Str.trim t)) allowed) eqn:Hin.
    + rewrite (safeEnum_text _ _ _ (Str.trim t)) by apply ToString_or_empty.
      by rewrite Hs, Hin.
    + rewrite (safeEnum_text _ _ _ fallback) by apply ToString_or_empty.
      rewrite Hf. by destruct (existsb (String.eqb fallback) allowed).
  - by rewrite (safeEnum_throw v allowed fallback e Ht).
Qed.

Lemma safeCategory_idempotent (v : value) :
  (let* s := safeCategory v in safeCategory (VStr s)) = safeCategory v.
Proof.
  destruct (ToString (or_else v (VStr ""))) as [t|e] eqn:Ht.
  - rewrite (safeCategory_text v t Ht). cbn [bind].
    assert (Hs : Str.trim (Str.trim t) = Str.trim t) by apply trim_idempotent.
    destruct (decide (Str.trim t ∈ categories)) as [Hin|Hin].
    + rewrite (safeCategory_text _ (Str.trim t)) by apply ToString_or_empty.
      rewrite Hs. by rewrite decide_True.
    + by vm_compute.
  - by rewrite (safeCategory_throw v e Ht).
Qed.

Lemma isFinite_not_nan (n : number) : isFinite n = true -> is_nan n = false.
Proof. by destruct n. Qed.

Lemma safeNumber_finite (v : value) (n min max : number) :
  ToNumber v = Ok n -> isFinite n = true ->
  safeNumber v min max = Ok (VNum (clamp n min max)).
Proof. intros Hn H. unfold safeNumber. rewrite Hn. cbn [bind]. by rewrite H. Qed.

Lemma safeNumber_not_finite (v : value) (n min max : number) :
  ToNumber v = Ok n -> isFinite n = false -> safeNumber v min max = Ok VNull.
Proof. intros Hn H. unfold safeNumber. rewrite Hn. cbn [bind]. by rewrite H. Qed.

Lemma safeNumber_throw (v : value) (min max : number) (e : error) :
  ToNumber v = Throw e -> safeNumber v min max = Throw e.
Proof. intros Hn. unfold safeNumber. by rewrite Hn. Qed.

Lemma safeNumber_idempotent (v : value) (min max : number) :
  isFinite min = true -> isFinite max = true ->
  safeNumber v min max <> Ok VNull ->
  (let* x := safeNumber v min max in safeNumber x min max)
  = safeNumber v min max.
Proof.
  intros Hmin Hmax Hv.
  destruct (ToNumber v) as [n|e] eqn:Hn;
    [|by rewrite (safeNumber_throw v min max e Hn)].
  destruct (isFinite n) eqn:Hf;
    [|by rewrite (safeNumber_not_finite v n) in Hv].
  rewrite (safeNumber_finite v n) by done. cbn [bind].
  rewrite (safeNumber_finite _ (clamp n min max)); [|reflexivity|].
  - by rewrite clamp_idempotent.
  - destruct (clamp_cases n min max) as [->|[->| ->]];
      auto using isFinite_not_nan.
Qed.

(** C2, as stated, fails on [safeNumber]: a value that does not convert to a
    finite number gives [null], and [null] converts to 0, which is clamped
    to the lower bound. *)
Lemma safeNumber_not_idempotent :
  safeNumber VUndefined lit_0_5 lit_12 = Ok VNull
  /\ (let* x := safeNumber VUndefined lit_0_5 lit_12 in
      safeNumber x lit_0_5 lit_12)
     = Ok (VNum lit_0_5)
  /\ (let* x := safeNumber VUndefined lit_0_5 lit_12 in
      safeNumber x lit_0_5 lit_12)
     <> safeNumber VUndefined lit_0_5 lit_12.
Proof. repeat split. discriminate. Qed.

(** With a length bound below 1 the slice of [safeString] counts from the
    end of the string, and each application removes one more character. *)
Example safeString_zero_length :
  safeString (VStr "abc") 0 = Ok "ab" /\ safeString (VStr "ab") 0 = Ok "a".
Proof. split; reflexivity. Qed.

(** A fallback that is not trimmed is not a fixed point of [safeEnum]
    when its trimmed text is allowed. *)
Example safeEnum_untrimmed_fallback :
  safeEnum (VStr "dawn") ["night"] " night " = Ok " night "
  /\ safeEnum (VStr " night ") ["night"] " night " = Ok "night".
Proof. split; reflexivity. Qed.

(** With an infinite bound the clamped number may be infinite, and an
    infinite number is sent to [null]. *)
Example safeNumber_infinite_bound :
  safeNumber (VNum lit_12) Infinity Infinity = Ok (VNum Infinity)
  /\ safeNumber (VNum Infinity) Infinity Infinity = Ok VNull.
Proof. split; reflexivity. Qed.

(** A value that does not convert makes the first application raise, and
    there is no second one. *)
Example safeString_raises :
  safeString (VObj [("toString", VNum one)]) 80 = Throw not_primitive
  /\ safeNumber (VObj [("toString", VNum one)]) lit_0_5 lit_12
     = Throw not_primitive.
Proof. split; reflexivity. Qed.

(** C2, amended. [safeString] with a length bound of at least 1, [safeEnum]
    with a trimmed fallback (as both fallbacks of the source are) and
    [safeCategory] are idempotent; [safeNumber] with finite bounds is
    idempotent on every input that it does not send to [null]. Applying a
    sanitizer to its own result gives that result again; where the
    conversion of the input raises, the first application raises and so does
    the composition. *)
Theorem sanitizers_idempotent :
  (forall (v : value) (maxLen : Z),
     1 <= maxLen ->
     (let* s := safeString v maxLen in safeString (VStr s) maxLen)
     = safeString v maxLen)
  /\ (forall (v : value) (min max : number),
        isFinite min = true -> isFinite max = true ->
        safeNumber v min max <> Ok VNull ->
        (let* x := safeNumber v min max in safeNumber x min max)
        = safeNumber v min max)
  /\ (forall (v : value) (allowed : list string) (fallback : string),
        Str.trim fallback = fallback ->
        (let* s := safeEnum v allowed fallback in
         safeEnum (VStr s) allowed fallback)
        = safeEnum v allowed fallback)
  /\ (forall v : value,
        (let* s := safeCategory v in safeCategory (VStr s)) = safeCategory v).
Proof.
  split; [exact safeString_idempotent|].
  split; [exact safeNumber_idempotent|].
  split; [exact safeEnum_idempotent|exact safeCategory_idempotent].
Qed.

Lemma sanitizers_idempotent_witness :
  (let* s := safeString (VStr "  Alfama district  ") 7 in
   safeString (VStr s) 7)
  = safeString (VStr "  Alfama district  ") 7
  /\ (let* x := safeNumber (VStr "99") lit_0_5 lit_12 in
      safeNumber x lit_0_5 lit_12)
     = safeNumber (VStr "99") lit_0_5 lit_12
  /\ (let* s := safeEnum (VStr " dawn ") times_of_day "afternoon" in
      safeEnum (VStr s) times_of_day "afternoon")
     = safeEnum (VStr " dawn ") times_of_day "afternoon".
Proof.
  destruct sanitizers_idempotent as (Hs & Hn & He & _).
  split; [|split].
  - apply Hs. lia.
  - apply Hn; [reflexivity|reflexivity|]. vm_compute. discriminate.
  - apply He. reflexivity.
Defined.

(** ** [slugify] and [safeId] *)

Lemma slugify_not_empty (s : value) (t : string) :
  slugify s = Ok t -> Str.is_empty t = false.
Proof.
  unfold slugify. destruct (slug_text s) as [r|e]; cbn [bind]; [|discriminate].
  destruct (Str.is_empty r) eqn:Hr; by intros [= <-].
Qed.

(** C3. The identifier is the slug of the candidate's [id], or of its name
    when it has none; but when the slug text is empty [slugify] already
    answers "place", so that the randomized fallback of [safeId] is never
    taken: the identifier is then the fixed string "place", as for the
    candidates with the ids "!!!" and "???". *)
Theorem safeId_fallback_unreachable (suffix : string) (s : value) :
  safeId suffix s = slugify s
  /\ safeId suffix s =
     (let* t := slug_text s in
      Ok (if Str.is_empty t then "place" else t))
  /\ (let* a := id_or_slug (VObj [("id", VStr "!!!")]) "Torre de Belem" in
      safeId suffix a)
     = Ok "place"
  /\ (let* a := id_or_slug (VObj [("id", VStr "???")]) "Alfama" in
      safeId suffix a)
     = Ok "place".
Proof.
  assert (H : safeId suffix s = slugify s).
  { unfold safeId. destruct (slugify s) as [t|e] eqn:Ht; cbn [bind];
      [|reflexivity].
    by rewrite (slugify_not_empty s t Ht). }
  split; [exact H|]. split; [|split].
  - rewrite H. unfold slugify.
    destruct (slug_text s) as [t|e]; cbn [bind]; [|reflexivity].
    by destruct (Str.is_empty t).
  - reflexivity.
  - reflexivity.
Qed.

(** ** [dedupePlaces] *)

Section Dedupe.

Implicit Types (p q : place) (ps earlier out : list place) (seen : gset string).

Lemma dedupe_loop_spec ps seen out earlier :
  (forall k, k ∈ seen <-> k ∈ dedupe_key <$> earlier) ->
  dedupe_loop ps seen out = (out ++ first_per_key_from earlier ps)%list.
Proof.
  revert seen out earlier.
  induction ps as [|p ps IH]; intros seen out earlier Hseen; simpl.
  - by rewrite app_nil_r.
  - destruct (decide (dedupe_key p ∈ seen)) as [Hin|Hin].
    + rewrite decide_True by by apply Hseen.
      apply IH. intros k. rewrite fmap_app, elem_of_app, <- Hseen. simpl.
      rewrite list_elem_of_singleton. split; [auto|]. by intros [?| ->].
    + rewrite decide_False by by rewrite <- Hseen.
      rewrite (IH (seen ∪ {[dedupe_key p]}) (out ++ [p])%list (earlier ++ [p])%list).
      * by rewrite <- app_assoc.
      * intros k. rewrite fmap_app, elem_of_app, <- Hseen. simpl.
        by rewrite list_elem_of_singleton, elem_of_union, elem_of_singleton.
Qed.

Lemma dedupePlaces_first_per_key ps : dedupePlaces ps = first_per_key ps.
Proof.
  unfold dedupePlaces, first_per_key.
  rewrite (dedupe_loop_spec ps ∅ [] []); [reflexivity|].
  intros k. simpl. by rewrite elem_of_empty, elem_of_nil.
Qed.

(** Only the keys of the earlier places matter. *)
Lemma first_per_key_from_keys earlier earlier' ps :
  (forall k, k ∈ dedupe_key <$> earlier <-> k ∈ dedupe_key <$> earlier') ->
  first_per_key_from earlier ps = first_per_key_from earlier' ps.
Proof.
  revert earlier earlier'.
  induction ps as [|p ps IH]; intros earlier earlier' Hk; simpl; [reflexivity|].
  rewrite (IH (earlier ++ [p])%list (earlier' ++ [p])%list).
  - destruct (decide (dedupe_key p ∈ dedupe_key <$> earlier)) as [Hin|Hin].
    + by rewrite decide_True by by apply Hk.
    + by rewrite decide_False by by rewrite <- Hk.
  - intros k. rewrite !fmap_app, !elem_of_app, Hk. done.
Qed.

Lemma first_per_key_from_app earlier ps qs :
  first_per_key_from earlier (ps ++ qs) =
  (first_per_key_from earlier ps ++ first_per_key_from (earlier ++ ps) qs)%list.
Proof.
  revert earlier. induction ps as [|p ps IH]; intros earlier; simpl.
  - by rewrite app_nil_r.
  - rewrite IH, <- !app_assoc. done.
Qed.

Lemma first_per_key_from_sublist earlier ps :
  first_per_key_from earlier ps `sublist_of` ps.
Proof.
  revert earlier. induction ps as [|p ps IH]; intros earlier; simpl.
  - constructor.
  - destruct (decide _); simpl.
    + by apply sublist_cons.
    + by apply sublist_skip.
Qed.

Lemma first_per_key_from_elem earlier ps q :
  q ∈ first_per_key_from earlier ps ->
  q ∈ ps /\ dedupe_key q ∉ dedupe_key <$> earlier.
Proof.
  revert earlier. induction ps as [|p ps IH]; intros earlier; simpl.
  - by intros ?%elem_of_nil.
  - rewrite elem_of_app. intros [Hq|Hq].
    + destruct (decide _) as [|Hn]; [by apply elem_of_nil in Hq|].
      apply list_elem_of_singleton in Hq as ->. split; [left|done].
    + apply IH in Hq as [Hq Hk]. split; [by right|].
      rewrite fmap_app, elem_of_app in Hk. tauto.
Qed.

(** The kept places have pairwise different keys. *)
Lemma first_per_key_from_NoDup earlier ps :
  NoDup (dedupe_key <$> first_per_key_from earlier ps).
Proof.
  revert earlier. induction ps as [|p ps IH]; intros earlier; simpl.
  - constructor.
  - destruct (decide _) as [|Hn]; simpl; [apply IH|].
    constructor; [|apply IH].
    intros (q & Hkq & Hq)%list_elem_of_fmap.
    apply first_per_key_from_elem in Hq as [_ Hq]. apply Hq.
    rewrite fmap_app, elem_of_app. right. rewrite <- Hkq. simpl. left.
Qed.

(** Every key of the input is the key of a kept place. *)
Lemma first_per_key_from_covers earlier ps p :
  p ∈ ps ->
  dedupe_key p ∈ dedupe_key <$> (earlier ++ first_per_key_from earlier ps)%list.
Proof.
  revert earlier. induction ps as [|q ps IH]; intros earlier Hp.
  - by apply elem_of_nil in Hp.
  - simpl. apply elem_of_cons in Hp as [->|Hp].
    + destruct (decide _) as [Hin|Hn].
      * rewrite fmap_app, elem_of_app. by left.
      * rewrite !fmap_app, !elem_of_app. right. left. simpl. left.
    + specialize (IH (earlier ++ [q])%list Hp).
      rewrite !fmap_app, !elem_of_app in IH. rewrite !fmap_app, !elem_of_app.
      destruct (decide _) as [Hin|Hn]; simpl in *.
      * destruct IH as [[?|Hq]|?]; auto.
        apply list_elem_of_singleton in Hq. rewrite Hq. auto.
      * tauto.
Qed.

(** Places with pairwise different keys, none of them seen earlier, are all
    kept. *)
Lemma first_per_key_from_fixed earlier ps :
  NoDup (dedupe_key <$> ps) ->
  (forall p, p ∈ ps -> dedupe_key p ∉ dedupe_key <$> earlier) ->
  first_per_key_from earlier ps = ps.
Proof.
  revert earlier. induction ps as [|p ps IH]; intros earlier Hnd Hfresh; simpl.
  - reflexivity.
  - rewrite fmap_cons in Hnd. apply NoDup_cons in Hnd as [Hp Hnd].
    rewrite decide_False by (apply Hfresh; left). simpl. f_equal.
    apply IH; [done|]. intros q Hq.
    rewrite fmap_app, elem_of_app. intros [Hin|Hin].
    + by apply (Hfresh q); [right|].
    + simpl in Hin. apply list_elem_of_singleton in Hin.
      apply Hp. rewrite <- Hin. by apply list_elem_of_fmap_2.
Qed.

End Dedupe.

Lemma dedupePlaces_sublist (ps : list place) :
  dedupePlaces ps `sublist_of` ps.
Proof.
  rewrite dedupePlaces_first_per_key. apply first_per_key_from_sublist.
Qed.

(** Two places with the same lower-cased [id] and the same lower-cased name
    have the same key. *)
Lemma dedupe_key_pair (p q : place) :
  Str.toLowerCase (Place.id p) = Str.toLowerCase (Place.id q) ->
  Str.toLowerCase (Place.name p) = Str.toLowerCase (Place.name q) ->
  dedupe_key p = dedupe_key q.
Proof. unfold dedupe_key. by intros -> ->. Qed.

(** A place whose key is the key of an earlier place leaves no trace. *)
Lemma dedupePlaces_later_duplicate (pre post : list place) (p : place) :
  dedupe_key p ∈ dedupe_key <$> pre ->
  dedupePlaces (pre ++ p :: post) = dedupePlaces (pre ++ post).
Proof.
  intros Hin. rewrite !dedupePlaces_first_per_key. unfold first_per_key.
  rewrite !first_per_key_from_app. simpl. rewrite decide_True by done. simpl.
  f_equal. apply first_per_key_from_keys.
  intros k. rewrite fmap_app, elem_of_app. simpl.
  rewrite list_elem_of_singleton. split; [by intros [?| ->]|auto].
Qed.

(** In arrival order: the last place is kept exactly when its key is not
    the key of a place before it. *)
Lemma dedupePlaces_snoc (pre : list place) (p : place) :
  dedupePlaces (pre ++ [p]) =
  (dedupePlaces pre
   ++ (if decide (dedupe_key p ∈ dedupe_key <$> pre) then [] else [p]))%list.
Proof.
  rewrite !dedupePlaces_first_per_key. unfold first_per_key.
  rewrite first_per_key_from_app. simpl. by rewrite app_nil_r.
Qed.

(** C6. [dedupePlaces] keys each place by its lower-cased [id|name] pair in
    arrival order and keeps the first place of each key: it computes
    [first_per_key]; the kept places have pairwise different keys, appear
    in the order of the input and cover every key of the input; a place
    that shares its lower-cased id and name with an earlier place is
    dropped; and a place that arrives last is kept exactly when no place
    before it has its key. *)
Theorem dedupePlaces_keeps_first (ps : list place) :
  dedupePlaces ps = first_per_key ps
  /\ (forall pre p,
        ps = (pre ++ [p])%list ->
        dedupePlaces ps =
        (dedupePlaces pre
         ++ (if decide (dedupe_key p ∈ dedupe_key <$> pre) then [] else [p]))%list)
  /\ NoDup (dedupe_key <$> dedupePlaces ps)
  /\ dedupePlaces ps `sublist_of` ps
  /\ (forall p, p ∈ ps -> dedupe_key p ∈ dedupe_key <$> dedupePlaces ps)
  /\ (forall pre p post q,
        ps = (pre ++ p :: post)%list ->
        q ∈ pre ->
        Str.toLowerCase (Place.id q) = Str.toLowerCase (Place.id p) ->
        Str.toLowerCase (Place.name q) = Str.toLowerCase (Place.name p) ->
        dedupePlaces ps = dedupePlaces (pre ++ post)).
Proof.
  split; [apply dedupePlaces_first_per_key|].
  split; [intros pre p ->; apply dedupePlaces_snoc|].
  rewrite dedupePlaces_first_per_key. unfold first_per_key.
  split; [apply first_per_key_from_NoDup|].
  split; [apply first_per_key_from_sublist|].
  split.
  - intros p Hp. apply (first_per_key_from_covers [] ps p Hp).
  - intros pre p post q -> Hq Hid Hname.
    change (first_per_key_from [] (pre ++ p :: post))
      with (first_per_key (pre ++ p :: post)).
    rewrite <- dedupePlaces_first_per_key.
    apply dedupePlaces_later_duplicate.
    rewrite <- (dedupe_key_pair q p Hid Hname). by apply list_elem_of_fmap_2.
Qed.

Lemma dedupePlaces_keeps_first_witness :
  dedupePlaces
    [sample_place "belem-tower" "Belem Tower";
     sample_place "alfama" "Alfama";
     sample_place "BELEM-TOWER" "belem tower"]
  = dedupePlaces
      [sample_place "belem-tower" "Belem Tower"; sample_place "alfama" "Alfama"].
Proof.
  destruct (dedupePlaces_keeps_first
              [sample_place "belem-tower" "Belem Tower";
               sample_place "alfama" "Alfama";
               sample_place "BELEM-TOWER" "belem tower"])
    as (_ & _ & _ & _ & _ & H).
  apply (H [sample_place "belem-tower" "Belem Tower"; sample_place "alfama" "Alfama"]
           (sample_place "BELEM-TOWER" "belem tower") []
           (sample_place "belem-tower" "Belem Tower")).
  - reflexivity.
  - apply list_elem_of_here.
  - reflexivity.
  - reflexivity.
Defined.

(** C10. [dedupePlaces] is idempotent, and its output is a subsequence of
    its input. *)
Theorem dedupePlaces_idempotent (ps : list place) :
  dedupePlaces (dedupePlaces ps) = dedupePlaces ps
  /\ dedupePlaces ps `sublist_of` ps.
Proof.
  rewrite !dedupePlaces_first_per_key. unfold first_per_key. split.
  - apply first_per_key_from_fixed.
    + apply first_per_key_from_NoDup.
    + intros p _. simpl. apply not_elem_of_nil.
  - apply first_per_key_from_sublist.
Qed.

(** ** The handler *)

(** In a sample world the chat endpoint answers with the JSON text of
    [reply], which [JSON.parse] turns back into [reply]; the geocoding
    endpoint is [geo]. *)

(** *** Requests without a destination *)

Lemma prop_body_trip (b : value) :
  b = VUndefined \/ b = VNull \/ prop b "trip" = VUndefined ->
  prop (or_else b (VObj [])) "trip" = VUndefined.
Proof.
  intros [->|[->|H]]; try reflexivity.
  unfold or_else. by destruct (truthy b).
Qed.

(** C9. A POST request whose body is missing, is [null] or has no [trip]
    is answered 400 "Missing trip.destination_query", and so is one whose
    [destination_query] is a blank string. *)
Theorem missing_trip_rejected (w : world) (req : request) :
  method req = "POST" ->
  (body req = VUndefined \/ body req = VNull
   \/ prop (body req) "trip" = VUndefined
   \/ exists s, prop (prop (or_else (body req) (VObj [])) "trip")
                  "destination_query" = VStr s
                /\ Str.trim s = "") ->
  handler w req = Send 400 "Missing trip.destination_query".
Proof.
  intros Hm Hb. unfold handler, handler_try. rewrite Hm. simpl.
  assert (Hq : trim_method or_empty
                 (or_else
                    (prop (prop (or_else (body req) (VObj [])) "trip")
                       "destination_query") (VStr "")) = Ok "").
  { destruct Hb as [Hb|[Hb|[Hb|(s & Hs & Ht)]]].
    - by rewrite prop_body_trip by auto.
    - by rewrite prop_body_trip by auto.
    - by rewrite prop_body_trip by auto.
    - rewrite Hs. unfold or_else. destruct (truthy (VStr s)); [|reflexivity].
      simpl. by rewrite Ht. }
  by rewrite Hq.
Qed.

Lemma missing_trip_rejected_witness :
  handler (sample_world VNull (fun _ => FetchFails (Error "unreachable")))
    {| method := "POST"; body := VUndefined |}
  = Send 400 "Missing trip.destination_query"
  /\ handler (sample_world VNull (fun _ => FetchFails (Error "unreachable")))
       {| method := "POST"; body := VObj [("options", VObj [])] |}
     = Send 400 "Missing trip.destination_query".
Proof.
  split.
  - apply missing_trip_rejected; [reflexivity|]. left. reflexivity.
  - apply missing_trip_rejected; [reflexivity|]. right. right. left. reflexivity.
Defined.

(** *** Requests that reach the language model *)

(** What the handler does up to the call of the language model. *)
Lemma handler_accepted (w : world) (req : request) (dq ask : string)
    (maxPlaces : number) :
  accepted w req dq ask maxPlaces ->
  handler w req =
  match getCandidatePlacesFromLLM w (llm_request_of w req dq ask maxPlaces) with
  | Throw e => error_response e
  | Ok llmJson =>
      if Z.of_nat (List.length (candidates_of llmJson)) =? 0
      then empty_response w dq
      else
        match mapboxGeocode w (default "" (MAPBOX_TOKEN w)) dq one
                "place,region,country" VUndefined with
        | Throw e => error_response e
        | Ok destGeo =>
            match geocode_loop w (default "" (MAPBOX_TOKEN w)) dq
                    (destBbox_of destGeo)
                    (array_slice0 (candidates_of llmJson) maxPlaces) []
            with
            | Throw e => error_response e
            | Ok geocoded => places_response w dq (destBbox_of destGeo) geocoded
            end
        end
  end.
Proof.
  intros [Hm Hd Hb Hmax Ha Ho Hx _].
  unfold handler, handler_try. rewrite Hm.
  change (negb ("POST" =? "POST")%string) with false. cbv iota.
  fold (trip_of req). fold (options_of req). rewrite Hd. cbn [bind].
  rewrite Hb. fold (maxPlaces_of req). rewrite Hmax. cbn [bind].
  rewrite Ha. cbn [bind]. rewrite Ho, Hx.
  fold (interests_of req).
  change (getCandidatePlacesFromLLM w _)
    with (getCandidatePlacesFromLLM w (llm_request_of w req dq ask maxPlaces)).
  destruct (getCandidatePlacesFromLLM w _) as [llmJson|e]; cbn [bind];
    [|reflexivity].
  fold (candidates_of llmJson).
  destruct (Z.of_nat (List.length (candidates_of llmJson)) =? 0);
    [reflexivity|].
  destruct (mapboxGeocode w _ dq one "place,region,country" VUndefined)
    as [destGeo|e]; [|reflexivity].
  cbn [bind]. fold (destBbox_of destGeo).
  by destruct (geocode_loop w _ dq _ _ []).
Qed.

(** What the handler does once the language model has answered. *)
Lemma handler_stages (w : world) (req : request) (dq ask : string)
    (maxPlaces : number) (llmJson : value) :
  accepted w req dq ask maxPlaces ->
  getCandidatePlacesFromLLM w (llm_request_of w req dq ask maxPlaces)
  = Ok llmJson ->
  (candidates_of llmJson = [] -> handler w req = empty_response w dq)
  /\ (candidates_of llmJson <> [] ->
      handler w req =
      match mapboxGeocode w (default "" (MAPBOX_TOKEN w)) dq one
              "place,region,country" VUndefined with
      | Throw e => error_response e
      | Ok destGeo =>
          match geocode_loop w (default "" (MAPBOX_TOKEN w)) dq
                  (destBbox_of destGeo)
                  (array_slice0 (candidates_of llmJson) maxPlaces) []
          with
          | Throw e => error_response e
          | Ok geocoded => places_response w dq (destBbox_of destGeo) geocoded
          end
      end).
Proof.
  intros Hacc Hllm. rewrite (handler_accepted w req dq ask maxPlaces Hacc), Hllm.
  split.
  - intros ->. reflexivity.
  - intros Hne. by destruct (candidates_of llmJson).
Qed.

Lemma accepted_with_mapbox w geo req dq ask maxPlaces :
  accepted w req dq ask maxPlaces ->
  accepted (with_mapbox w geo) req dq ask maxPlaces.
Proof. intros [Hm Hd Hb Hmax Ha Ho Hx Hi]. by constructor. Qed.

(** C7. When the request reaches the language model and the parsed reply
    has an empty [places] array, the handler answers 200 with [places: []],
    without [geocode_provider] in [meta] and without [bbox] in
    [destination]; the answer is the same whatever the geocoding endpoint
    would do, which is never called. A request reaches the language model
    when it passes the checks of the handler and its [max_places] and
    interests convert ([accepted]). *)
Theorem empty_places_reply (w : world) (req : request) (dq ask : string)
    (maxPlaces : number) (llmJson : value) :
  accepted w req dq ask maxPlaces ->
  getCandidatePlacesFromLLM w (llm_request_of w req dq ask maxPlaces)
  = Ok llmJson ->
  prop llmJson "places" = VArr [] ->
  forall geo : geocode_request -> fetched,
    handler (with_mapbox w geo) req =
    Json 200
      {| destination_of := {| dest_query := dq; bbox := None |};
         places := [];
         meta_of :=
           {| generated_at := now w; geocode_provider := None;
              cache_hit := false |} |}.
Proof.
  intros Hacc Hllm Hplaces geo.
  destruct (handler_stages (with_mapbox w geo) req dq ask maxPlaces llmJson)
    as [H _].
  - by apply accepted_with_mapbox.
  - exact Hllm.
  - apply H. unfold candidates_of. by rewrite Hplaces.
Qed.

Lemma lisbon_accepted reply geo :
  accepted (sample_world reply geo) lisbon_request "Lisbon" "" fifteen.
Proof. by constructor. Qed.

Lemma empty_places_reply_witness :
  handler
    (sample_world (VObj [("places", VArr [])])
       (fun _ => FetchFails (Error "network down")))
    lisbon_request
  = Json 200
      {| destination_of := {| dest_query := "Lisbon"; bbox := None |};
         places := [];
         meta_of :=
           {| generated_at := "2025-01-01T00:00:00.000Z";
              geocode_provider := None;
              cache_hit := false |} |}.
Proof.
  apply (empty_places_reply
           (sample_world (VObj [("places", VArr [])])
              (fun _ => FetchFails (Error "unreachable")))
           lisbon_request "Lisbon" "" fifteen (VObj [("places", VArr [])])).
  - apply lisbon_accepted.
  - reflexivity.
  - reflexivity.
Defined.

(** *** The loop over the candidates *)

Section Loop.

Variables (w : world) (token dq : string) (destBbox : value).

Lemma geocode_loop_app (before after : list value) (geocoded : list place) :
  geocode_loop w token dq destBbox (before ++ after) geocoded =
  let* pushed := geocode_loop w token dq destBbox before geocoded in
  geocode_loop w token dq destBbox after pushed.
Proof.
  revert geocoded. induction before as [|c before IH]; intros geocoded; simpl.
  - reflexivity.
  - destruct (geocodeCandidate w token dq destBbox c) as [o|e]; simpl.
    + apply IH.
    + reflexivity.
Qed.

(** A candidate for which nothing is pushed does not change the loop. *)
Lemma geocode_loop_skip (c : value) (before after : list value)
    (geocoded : list place) :
  geocodeCandidate w token dq destBbox c = Ok None ->
  geocode_loop w token dq destBbox (before ++ c :: after) geocoded =
  geocode_loop w token dq destBbox (before ++ after) geocoded.
Proof.
  intros Hc. rewrite !geocode_loop_app.
  destruct (geocode_loop w token dq destBbox before geocoded); simpl;
    [|reflexivity].
  by rewrite Hc.
Qed.

(** The candidate is dropped when its lookup succeeds with a top feature
    that is missing or whose [center] is not an array of two entries. *)
Lemma geocodeCandidate_dropped (c : value) (name : string) (r : value) :
  trim_method or_empty (or_else (prop c "name") (VStr ""))
  = Ok name ->
  Str.is_empty name = false ->
  mapboxGeocode w token (name ++ ", " ++ dq) one
    "poi,neighborhood,place,address" destBbox = Ok r ->
  truthy (index0 (prop r "features")) = false
  \/ isArray (prop (index0 (prop r "features")) "center") = false
  \/ array_length (prop (index0 (prop r "features")) "center") <> 2 ->
  geocodeCandidate w token dq destBbox c = Ok None.
Proof.
  intros Hname Hne Hgeo Hbad. unfold geocodeCandidate.
  rewrite Hname. cbn [bind]. rewrite Hne, Hgeo. cbn [bind].
  destruct Hbad as [->|[->|Hlen]]; [reflexivity|by rewrite orb_true_r|].
  apply Z.eqb_neq in Hlen. rewrite Hlen. by rewrite !orb_true_r.
Qed.

Lemma array_of_two (v : value) :
  isArray v = true -> array_length v = 2 ->
  v = VArr [array_item 0 v; array_item 1 v].
Proof.
  destruct v as [| | | | |items|]; try discriminate. intros _.
  unfold array_length.
  destruct items as [|a [|b [|c rest]]]; cbn [List.length]; intros H;
    try lia.
  reflexivity.
Qed.

(** What a pushed place was made of. *)
Lemma geocodeCandidate_pushed (c : value) (p : place) :
  geocodeCandidate w token dq destBbox c = Ok (Some p) ->
  exists (name : string) (r a : value),
    trim_method or_empty (or_else (prop c "name") (VStr "")) = Ok name
    /\ Str.is_empty name = false
    /\ mapboxGeocode w token (name ++ ", " ++ dq) one
         "poi,neighborhood,place,address" destBbox = Ok r
    /\ truthy (index0 (prop r "features")) = true
    /\ isArray (prop (index0 (prop r "features")) "center") = true
    /\ array_length (prop (index0 (prop r "features")) "center") = 2
    /\ Place.lng p = array_item 0 (prop (index0 (prop r "features")) "center")
    /\ Place.lat p = array_item 1 (prop (index0 (prop r "features")) "center")
    /\ Place.name p = name
    /\ id_or_slug c name = Ok a
    /\ safeId (random_suffix w) a = Ok (Place.id p)
    /\ safeCategory (prop c "category") = Ok (Place.category p)
    /\ safeStringArray (prop c "highlights") 6 80 = Ok (Place.highlights p)
    /\ safeString (prop c "why_go") 260 = Ok (Place.why_go p)
    /\ safeNumber (prop c "time_needed_hours") lit_0_5 lit_12
       = Ok (Place.time_needed_hours p)
    /\ safeEnum (prop c "best_time_of_day") times_of_day "afternoon"
       = Ok (Place.best_time_of_day p)
    /\ safeStringArray (prop c "tags") 8 30 = Ok (Place.tags p)
    /\ geocodeConfidence (index0 (prop r "features")) = Ok (Place.confidence p).
Proof.
  unfold geocodeCandidate.
  destruct (trim_method _ _) as [name|]; [|discriminate]. cbn [bind].
  destruct (Str.is_empty name) eqn:Hne; [discriminate|].
  destruct (mapboxGeocode _ _ _ _ _ _) as [r|] eqn:Hgeo; [|discriminate].
  cbn [bind].
  destruct (truthy (index0 (prop r "features"))) eqn:Hf; [|discriminate].
  destruct (isArray (prop (index0 (prop r "features")) "center")) eqn:Ha;
    [|discriminate].
  destruct (array_length (prop (index0 (prop r "features")) "center") =? 2)
    eqn:Hl; [|discriminate].
  cbn [negb orb].
  destruct (id_or_slug c name) as [a|] eqn:Hid; [|discriminate]. cbn [bind].
  destruct (safeId _ a) as [id|] eqn:Hsafe; [|discriminate]. cbn [bind].
  destruct (safeCategory _) as [category|]; [|discriminate]. cbn [bind].
  destruct (safeStringArray _ 6 80) as [highlights|]; [|discriminate].
  cbn [bind].
  destruct (safeString _ 260) as [why_go|]; [|discriminate]. cbn [bind].
  destruct (safeNumber _ _ _) as [hours|]; [|discriminate]. cbn [bind].
  destruct (safeEnum _ _ _) as [best|]; [|discriminate]. cbn [bind].
  destruct (safeStringArray _ 8 30) as [tags|]; [|discriminate]. cbn [bind].
  destruct (geocodeConfidence _) as [conf|] eqn:Hconf; [|discriminate].
  cbn [bind]. intros [= <-]. exists name, r, a. cbn.
  apply Z.eqb_eq in Hl. repeat (split; [done|]). done.
Qed.

Lemma geocodeCandidate_located (c : value) (p : place) :
  geocodeCandidate w token dq destBbox c = Ok (Some p) ->
  located w token destBbox p.
Proof.
  intros Hp.
  destruct (geocodeCandidate_pushed c p Hp)
    as (name & r & a & _ & _ & Hgeo & Hf & Ha & Hl & Hlng & Hlat & _).
  exists (name ++ ", " ++ dq), r.
  split; [done|]. split; [done|].
  rewrite Hlng, Hlat. by apply array_of_two.
Qed.

Lemma geocode_loop_located (cs : list value) (geocoded out : list place) :
  geocode_loop w token dq destBbox cs geocoded = Ok out ->
  Forall (located w token destBbox) geocoded ->
  Forall (located w token destBbox) out.
Proof.
  revert geocoded. induction cs as [|c cs IH]; intros geocoded; simpl.
  - by intros [= <-].
  - destruct (geocodeCandidate w token dq destBbox c) as [[p|]|] eqn:Hc;
      simpl; [| |discriminate].
    + intros Hloop Hall. eapply IH; [exact Hloop|].
      apply Forall_app. split; [done|].
      constructor; [|constructor]. by eapply geocodeCandidate_located.
    + apply IH.
Qed.

End Loop.

(** *** Candidates whose lookup finds nothing *)

(** C8. A candidate whose geocode lookup returns zero features pushes
    nothing and raises nothing: the loop goes on as if the candidate were
    not there, and when the remaining candidates go through, a request that
    reached the language model ([accepted]) is answered 200 with the places
    of the remaining candidates. *)
Theorem zero_features_candidate_absent (w : world) (token dq : string)
    (destBbox c : value) (name : string) (r : value) :
  trim_method or_empty (or_else (prop c "name") (VStr ""))
  = Ok name ->
  Str.is_empty name = false ->
  mapboxGeocode w token (name ++ ", " ++ dq) one
    "poi,neighborhood,place,address" destBbox = Ok r ->
  prop r "features" = VArr [] ->
  geocodeCandidate w token dq destBbox c = Ok None
  /\ (forall (before after : list value) (geocoded : list place),
        geocode_loop w token dq destBbox (before ++ c :: after) geocoded =
        geocode_loop w token dq destBbox (before ++ after) geocoded)
  /\ (forall (req : request) (ask : string) (maxPlaces : number)
             (llmJson destGeo : value) (before after : list value)
             (geocoded : list place),
        accepted w req dq ask maxPlaces ->
        getCandidatePlacesFromLLM w (llm_request_of w req dq ask maxPlaces)
        = Ok llmJson ->
        token = default "" (MAPBOX_TOKEN w) ->
        mapboxGeocode w token dq one "place,region,country" VUndefined
        = Ok destGeo ->
        destBbox = destBbox_of destGeo ->
        array_slice0 (candidates_of llmJson) maxPlaces
        = (before ++ c :: after)%list ->
        geocode_loop w token dq destBbox (before ++ after) [] = Ok geocoded ->
        handler w req =
        Json 200
          {| destination_of := {| dest_query := dq; bbox := Some destBbox |};
             places := dedupePlaces geocoded;
             meta_of :=
               {| generated_at := now w; geocode_provider := Some "mapbox";
                  cache_hit := false |} |}).
Proof.
  intros Hname Hne Hgeo Hfeat.
  assert (Hnone : geocodeCandidate w token dq destBbox c = Ok None).
  { eapply geocodeCandidate_dropped; eauto. left. by rewrite Hfeat. }
  split; [exact Hnone|]. split.
  - intros before after geocoded. by apply geocode_loop_skip.
  - intros req ask maxPlaces llmJson destGeo before after geocoded
      Hacc Hllm -> Hdest -> Hslice Hloop.
    destruct (handler_stages w req dq ask maxPlaces llmJson Hacc Hllm)
      as [_ H].
    rewrite H.
    + rewrite Hdest, Hslice, geocode_loop_skip by done. by rewrite Hloop.
    + intros Hnil. rewrite Hnil in Hslice. unfold array_slice0 in Hslice.
      rewrite take_nil in Hslice. by destruct before.
Qed.

Lemma zero_features_candidate_absent_witness :
  handler atlantis_world lisbon_request =
  Json 200
    {| destination_of := {| dest_query := "Lisbon"; bbox := Some VNull |};
       places := dedupePlaces [belem_place];
       meta_of :=
         {| generated_at := "2025-01-01T00:00:00.000Z";
            geocode_provider := Some "mapbox";
            cache_hit := false |} |}.
Proof.
  destruct (zero_features_candidate_absent atlantis_world "pk.test" "Lisbon"
              VNull (VObj [("name", VStr "Atlantis")]) "Atlantis"
              (VObj [("features", VArr [])]))
    as (_ & _ & H); [reflexivity|reflexivity|reflexivity|reflexivity|].
  apply (H lisbon_request "" fifteen
           (VObj [("places",
                   VArr [VObj [("name", VStr "Atlantis")];
                         VObj [("name", VStr "Belem Tower")]])])
           (VObj [("features", VArr [poi_feature])])
           [] [VObj [("name", VStr "Belem Tower")]] [belem_place]);
    [apply lisbon_accepted|reflexivity..].
Defined.

(** *** The coordinates of the emitted places *)

(** C1, as stated, fails: the handler tests that the [center] of the top
    feature is an array of two entries, not what the entries are, and a
    place is emitted with [null] coordinates. *)
Lemma null_coordinates_emitted :
  ~ (forall body : payload,
       handler null_center_world lisbon_request = Json 200 body ->
       forall p, p ∈ places body ->
         finite_coordinate (Place.lat p) /\ finite_coordinate (Place.lng p)).
Proof.
  intros H.
  assert (Hr : exists body p,
             handler null_center_world lisbon_request = Json 200 body
             /\ places body = [p] /\ Place.lat p = VNull).
  { eexists _, _. split; [vm_compute; reflexivity|]. split; reflexivity. }
  destruct Hr as (body & p & Hbody & Hplaces & Hlat).
  destruct (H body Hbody p) as [(n & Hn & _) _].
  - rewrite Hplaces. apply list_elem_of_here.
  - rewrite Hlat in Hn. discriminate Hn.
Qed.

(** C1, amended. Every place of a 200 response was built from the top
    feature of a successful lookup whose [center] is an array of exactly
    two entries, and its [lng] and [lat] are these two entries, in this
    order (so that they are finite numbers whenever the entries are); a
    candidate whose top feature is missing, or whose [center] is not an
    array of exactly two entries, is dropped. *)
Theorem places_located (w : world) (req : request) :
  (forall (status : Z) (body : payload),
     handler w req = Json status body ->
     status = 200
     /\ forall p, p ∈ places body ->
          exists (token : string) (destBbox : value),
            located w token destBbox p)
  /\ (forall (token dq : string) (destBbox c : value) (name : string)
             (r : value),
        trim_method or_empty (or_else (prop c "name") (VStr ""))
        = Ok name ->
        Str.is_empty name = false ->
        mapboxGeocode w token (name ++ ", " ++ dq) one
          "poi,neighborhood,place,address" destBbox = Ok r ->
        truthy (index0 (prop r "features")) = false
        \/ isArray (prop (index0 (prop r "features")) "center") = false
        \/ array_length (prop (index0 (prop r "features")) "center") <> 2 ->
        geocodeCandidate w token dq destBbox c = Ok None).
Proof.
  split; [|intros; by eapply geocodeCandidate_dropped].
  intros status body. unfold handler.
  destruct (handler_try w req) as [resp|e] eqn:Ht; [intros ->|discriminate].
  unfold handler_try in Ht. cbv zeta in Ht.
  repeat match type of Ht with
         | (if ?b then _ else _) = _ => destruct b
         | bind ?x _ = _ => destruct x eqn:?; cbn [bind] in Ht
         | Ok (Send _ _) = Ok (Json _ _) => discriminate Ht
         | Throw _ = Ok _ => discriminate Ht
         end.
  - injection Ht as <- <-. split; [reflexivity|]. by intros p ?%elem_of_nil.
  - injection Ht as <- <-. split; [reflexivity|]. simpl. intros p Hp.
    do 2 eexists.
    eapply Forall_forall; [|eapply elem_of_sublist;
                             [exact Hp|apply dedupePlaces_sublist]].
    eapply geocode_loop_located; [eassumption|constructor].
Qed.

Lemma places_located_witness :
  (exists (token : string) (destBbox : value),
     located atlantis_world token destBbox belem_place)
  /\ geocodeCandidate atlantis_world "pk.test" "Lisbon" VNull
       (VObj [("name", VStr "Atlantis")]) = Ok None.
Proof.
  destruct (places_located atlantis_world lisbon_request) as [Hin Hout].
  split.
  - destruct (Hin 200
                {| destination_of :=
                     {| dest_query := "Lisbon"; bbox := Some VNull |};
                   places := [belem_place];
                   meta_of :=
                     {| generated_at := "2025-01-01T00:00:00.000Z";
                        geocode_provider := Some "mapbox";
                        cache_hit := false |} |})
      as [_ Hp]; [vm_compute; reflexivity|].
    apply Hp. apply list_elem_of_here.
  - apply (Hout "pk.test" "Lisbon" VNull (VObj [("name", VStr "Atlantis")])
             "Atlantis" (VObj [("features", VArr [])]));
      [reflexivity|reflexivity|reflexivity|].
    left. reflexivity.
Defined.

(** *** The end-to-end example of the specification

    Destination "Lisbon", one candidate named "Belém Tower" (the [é] is the
    code unit U+00E9), and a geocoder reply with the centre [-9.2, 38.7],
    the type "poi" and no relevance: exactly one place, with [lat = 38.7],
    [lng = -9.2] and [confidence = 0.78]. *)

Example handler_belem_tower :
  handler
    (sample_world (VObj [("places", VArr [VObj [("name", VStr belem_tower)]])])
       (fun _ => ok_response (VObj [("features", VArr [poi_feature])])))
    lisbon_request
  = Json 200
      {| destination_of := {| dest_query := "Lisbon"; bbox := Some VNull |};
         places :=
           [{| Place.id := "bel-m-tower";
               Place.name := belem_tower;
               Place.category := "sight";
               Place.lat := VNum lit_lat;
               Place.lng := VNum lit_lng;
               Place.highlights := [];
               Place.why_go := "";
               Place.time_needed_hours := VNull;
               Place.best_time_of_day := "afternoon";
               Place.tags := [];
               Place.confidence := lit_0_78 |}];
         meta_of :=
           {| generated_at := "2025-01-01T00:00:00.000Z";
              geocode_provider := Some "mapbox";
              cache_hit := false |} |}.
Proof. vm_compute. reflexivity. Qed.

(** * Further properties *)

(** ** Bounds of the sanitizers *)

(** X1. [safeString] raises what the conversion [String(v || "")] raises,
    and returns when the conversion does. For a length bound of at least 1,
    what it returns is trimmed and no longer than the bound; a trimmed text
    that fits is returned whole, and a longer one is cut to less than the
    bound. *)
Theorem safeString_bounded (v : value) (maxLen : Z) :
  1 <= maxLen ->
  (forall e, ToString (or_else v (VStr "")) = Throw e ->
     safeString v maxLen = Throw e)
  /\ (forall t, ToString (or_else v (VStr "")) = Ok t ->
        exists s, safeString v maxLen = Ok s
          /\ Str.trim s = s
          /\ Str.length s <= maxLen
          /\ (Str.length (Str.trim t) <= maxLen -> s = Str.trim t)
          /\ (maxLen < Str.length (Str.trim t) -> Str.length s <= maxLen - 1)).
Proof.
  intros Hm. split; [intros e; apply safeString_throw|].
  intros t Ht. rewrite (safeString_text v maxLen t Ht).
  set (s := Str.trim t).
  assert (Hs : Str.trim s = s) by apply trim_idempotent.
  assert (Hcut : Str.length (Str.trim (Str.slice s 0 (maxLen - 1))) <= maxLen - 1).
  { etrans; [apply length_trim|]. apply length_slice0. lia. }
  eexists. split; [reflexivity|].
  destruct (Str.is_empty s) eqn:He.
  - apply is_empty_true in He. rewrite He. unfold Str.length. simpl.
    repeat split; lia.
  - destruct (maxLen <? Str.length s) eqn:Hlt.
    + repeat split; [apply trim_idempotent|lia|lia|lia].
    + repeat split; [done|lia|lia].
Qed.

Lemma safeString_bounded_witness :
  exists s,
    safeString (VStr "   Pasteis de Belem, since 1837   ") 10 = Ok s
    /\ Str.length s <= 10.
Proof.
  destruct (safeString_bounded (VStr "   Pasteis de Belem, since 1837   ") 10)
    as [_ H]; [lia|].
  destruct (H "   Pasteis de Belem, since 1837   " eq_refl)
    as (s & Hs & _ & Hlen & _).
  exists s. split; [exact Hs|exact Hlen].
Defined.

(** The loop over a prefix whose items convert: either the output is full
    within the prefix, and the loop stops there, or it goes on with what
    the prefix gave. *)
Lemma safeStringArray_loop_prefix (pre post : list value)
    (maxItems maxItemLen : Z) (out texts : list string) :
  Z.of_nat (List.length out) < maxItems ->
  sanitize_all pre maxItemLen = Ok texts ->
  safeStringArray_loop (pre ++ post) maxItems maxItemLen out =
  if maxItems <=? Z.of_nat (List.length (out ++ kept texts))
  then Ok (take (Z.to_nat maxItems) (out ++ kept texts)%list)
  else safeStringArray_loop post maxItems maxItemLen (out ++ kept texts)%list.
Proof.
  revert out texts.
  induction pre as [|item rest IH]; intros out texts Hlen; simpl.
  - intros [= <-]. unfold kept. simpl. rewrite app_nil_r.
    destruct (maxItems <=? Z.of_nat (List.length out)) eqn:Hfull; [|done].
    apply Z.leb_le in Hfull. lia.
  - destruct (safeString item maxItemLen) as [s|e]; cbn [bind]; [|discriminate].
    destruct (sanitize_all rest maxItemLen) as [l|e] eqn:Hl; cbn [bind];
      [|discriminate].
    intros [= <-]. unfold kept. simpl.
    destruct (Str.is_empty s) eqn:He; simpl.
    + destruct (maxItems <=? Z.of_nat (List.length out)) eqn:Hfull;
        [apply Z.leb_le in Hfull; lia|].
      by apply IH.
    + fold (kept l).
      replace (out ++ s :: kept l)%list with ((out ++ [s]) ++ kept l)%list
        by (by rewrite <- app_assoc).
      destruct (maxItems <=? Z.of_nat (List.length (out ++ [s]))) eqn:Hfull.
      * apply Z.leb_le in Hfull. rewrite length_app in Hfull. simpl in Hfull.
        destruct (maxItems <=? Z.of_nat (List.length ((out ++ [s]) ++ kept l)))
          eqn:Hall.
        -- f_equal. symmetry. apply take_app_length'.
           rewrite length_app. simpl. lia.
        -- apply Z.leb_gt in Hall. rewrite !length_app in Hall.
           simpl in Hall. lia.
      * apply Z.leb_gt in Hfull. by apply IH.
Qed.

(** When every item converts, the loop gives the first [maxItems]
    non-empty strings. *)
Lemma safeStringArray_loop_take (items : list value) (maxItems maxItemLen : Z)
    (texts : list string) :
  1 <= maxItems ->
  sanitize_all items maxItemLen = Ok texts ->
  safeStringArray_loop items maxItems maxItemLen [] =
  Ok (take (Z.to_nat maxItems) (kept texts)).
Proof.
  intros Hm Ht.
  rewrite <- (app_nil_r items).
  rewrite (safeStringArray_loop_prefix items [] _ _ [] texts) by (simpl; lia || done).
  simpl. destruct (maxItems <=? _) eqn:Hfull; [done|].
  apply Z.leb_gt in Hfull. rewrite take_ge; [done|lia].
Qed.

(** X2. [safeStringArray] gives the empty list for anything that is not an
    array. On an array the items are converted one by one until [maxItems]
    strings are kept: when all the items convert, or when those of a prefix
    convert and give [maxItems] non-empty strings, the result is the first
    [maxItems] non-empty sanitized strings, in their order, and the items
    after the cut are never converted; an item that does not convert and
    comes before the cut makes the call raise. With [maxItems] below 1 only
    the first item is looked at: it is kept unless it is empty, and the
    loop stops. *)
Theorem safeStringArray_spec (v : value) (maxItems maxItemLen : Z) :
  (isArray v = false -> safeStringArray v maxItems maxItemLen = Ok [])
  /\ (forall pre post texts,
        v = VArr (pre ++ post) -> 1 <= maxItems ->
        sanitize_all pre maxItemLen = Ok texts ->
        post = [] \/ maxItems <= Z.of_nat (List.length (kept texts)) ->
        safeStringArray v maxItems maxItemLen =
        Ok (take (Z.to_nat maxItems) (kept texts)))
  /\ (forall pre x post texts e,
        v = VArr (pre ++ x :: post) -> 1 <= maxItems ->
        sanitize_all pre maxItemLen = Ok texts ->
        Z.of_nat (List.length (kept texts)) < maxItems ->
        safeString x maxItemLen = Throw e ->
        safeStringArray v maxItems maxItemLen = Throw e)
  /\ (forall item rest s,
        v = VArr (item :: rest) -> maxItems < 1 ->
        safeString item maxItemLen = Ok s ->
        safeStringArray v maxItems maxItemLen = Ok (kept [s])).
Proof.
  split; [by destruct v|]. split; [|split].
  - intros pre post texts -> Hm Ht Hcut. unfold safeStringArray.
    destruct Hcut as [->|Hfull].
    + rewrite app_nil_r. by apply safeStringArray_loop_take.
    + rewrite (safeStringArray_loop_prefix pre post _ _ [] texts)
        by (simpl; lia || done).
      simpl. destruct (maxItems <=? _) eqn:Hle; [done|].
      apply Z.leb_gt in Hle. lia.
  - intros pre x post texts e -> Hm Ht Hlen Hx. unfold safeStringArray.
    rewrite (safeStringArray_loop_prefix pre (x :: post) _ _ [] texts)
      by (simpl; lia || done).
    simpl app. destruct (maxItems <=? _) eqn:Hle;
      [apply Z.leb_le in Hle; lia|].
    simpl. by rewrite Hx.
  - intros item rest s -> Hm Hs. unfold safeStringArray, kept. simpl.
    rewrite Hs. cbn [bind].
    destruct (Str.is_empty s); simpl;
      (destruct (maxItems <=? _) eqn:Hle;
       [done|apply Z.leb_gt in Hle; simpl in Hle; lia]).
Qed.

Lemma safeStringArray_spec_witness :
  safeStringArray (VStr "river, castle") 6 80 = Ok []
  /\ safeStringArray
       (VArr [VStr " river "; VNull; VStr ""; VStr "castle";
              VObj [("toString", VNull)]]) 2 80
     = Ok ["river"; "castle"]
  /\ safeStringArray
       (VArr [VStr " river "; VObj [("toString", VNull)]; VStr "castle"]) 2 80
     = Throw not_primitive
  /\ safeStringArray (VArr [VStr ""; VStr "castle"]) 0 80 = Ok [].
Proof.
  split; [|split; [|split]].
  - destruct (safeStringArray_spec (VStr "river, castle") 6 80) as (H & _).
    apply H. reflexivity.
  - destruct (safeStringArray_spec
                (VArr [VStr " river "; VNull; VStr ""; VStr "castle";
                       VObj [("toString", VNull)]])
                2 80) as (_ & H & _).
    apply (H [VStr " river "; VNull; VStr ""; VStr "castle"]
             [VObj [("toString", VNull)]] ["river"; ""; ""; "castle"]);
      [reflexivity|lia|reflexivity|].
    right. simpl. lia.
  - destruct (safeStringArray_spec
                (VArr [VStr " river "; VObj [("toString", VNull)]; VStr "castle"])
                2 80) as (_ & _ & H & _).
    apply (H [VStr " river "] (VObj [("toString", VNull)]) [VStr "castle"]
             ["river"]); [reflexivity|lia|reflexivity|simpl; lia|reflexivity].
  - destruct (safeStringArray_spec (VArr [VStr ""; VStr "castle"]) 0 80)
      as (_ & _ & _ & H).
    apply (H (VStr "") [VStr "castle"] ""); [reflexivity|lia|reflexivity].
Defined.

(** X3. [safeNumber] raises what the conversion [Number(v)] raises. When
    the conversion gives a number and the bounds are ordered, it gives
    [null] exactly when that number is not finite, and otherwise a number
    between the bounds. *)
Theorem safeNumber_range (v : value) (min max : number) :
  Num.leb min max = true ->
  (forall e, ToNumber v = Throw e -> safeNumber v min max = Throw e)
  /\ (forall n, ToNumber v = Ok n ->
        (isFinite n = false /\ safeNumber v min max = Ok VNull)
        \/ (isFinite n = true
            /\ exists x, safeNumber v min max = Ok (VNum x)
                         /\ Num.leb min x = true /\ Num.leb x max = true)).
Proof.
  intros Hle. split; [intros e; apply safeNumber_throw|].
  intros n Hn. destruct (isFinite n) eqn:Hf.
  - right. split; [done|]. exists (clamp n min max).
    split; [by apply safeNumber_finite|].
    apply clamp_between; [by apply isFinite_not_nan|done].
  - left. split; [done|]. by apply (safeNumber_not_finite v n).
Qed.

Lemma safeNumber_range_witness :
  exists x, safeNumber (VStr "36") lit_0_5 lit_12 = Ok (VNum x)
            /\ Num.leb lit_0_5 x = true /\ Num.leb x lit_12 = true.
Proof.
  destruct (safeNumber_range (VStr "36") lit_0_5 lit_12) as [_ H];
    [reflexivity|].
  destruct (H (Num.of_Z 36)) as [[Hf _]|[_ Hx]];
    [vm_compute; reflexivity|discriminate Hf|exact Hx].
Defined.

Lemma existsb_eqb_In (s : string) (l : list string) :
  existsb (String.eqb s) l = true <-> s ∈ l.
Proof.
  rewrite existsb_exists. split.
  - intros (x & Hin & Hx). apply String.eqb_eq in Hx as ->.
    by apply list_elem_of_In.
  - intros Hin. exists s. split; [by apply list_elem_of_In|].
    apply String.eqb_refl.
Qed.

Lemma safeEnum_allowed (v : value) (allowed : list string)
    (fallback s : string) :
  fallback ∈ allowed -> safeEnum v allowed fallback = Ok s -> s ∈ allowed.
Proof.
  intros Hf. unfold safeEnum.
  destruct (ToString (or_else v (VStr ""))) as [t|e]; cbn [bind];
    [|discriminate].
  destruct (existsb _ allowed) eqn:Hin; intros [= <-]; [|done].
  by apply existsb_eqb_In.
Qed.

Lemma safeCategory_as_safeEnum (v : value) :
  safeCategory v = safeEnum v category_list "sight".
Proof.
  unfold safeCategory, safeEnum.
  destruct (ToString (or_else v (VStr ""))) as [t|e]; cbn [bind];
    [|reflexivity].
  set (s := Str.trim t).
  destruct (decide (s ∈ categories)) as [Hin|Hin];
    unfold categories in Hin; rewrite elem_of_list_to_set in Hin;
    fold category_list in Hin; rewrite <- existsb_eqb_In in Hin.
  - by rewrite Hin.
  - by destruct (existsb (String.eqb s) category_list).
Qed.

Lemma safeCategory_allowed (v : value) (s : string) :
  safeCategory v = Ok s -> s ∈ category_list.
Proof.
  rewrite safeCategory_as_safeEnum. apply safeEnum_allowed.
  apply list_elem_of_here.
Qed.

(** X4. [safeCategory] is [safeEnum] with the eight categories and the
    fallback "sight"; both return exactly when the conversion
    [String(v || "")] does, what [safeCategory] returns is one of the eight
    categories, and what [safeEnum] returns is allowed when its fallback
    is. *)
Theorem safeCategory_safeEnum (v : value) :
  safeCategory v = safeEnum v category_list "sight"
  /\ (forall allowed fallback,
        returns (safeEnum v allowed fallback)
        = returns (ToString (or_else v (VStr ""))))
  /\ (forall s, safeCategory v = Ok s -> s ∈ category_list)
  /\ (forall allowed fallback s,
        fallback ∈ allowed -> safeEnum v allowed fallback = Ok s ->
        s ∈ allowed).
Proof.
  split; [apply safeCategory_as_safeEnum|]. split; [|split].
  - intros allowed fallback. unfold safeEnum.
    destruct (ToString (or_else v (VStr ""))) as [t|e]; cbn [bind];
      [|reflexivity].
    by destruct (existsb _ allowed).
  - apply safeCategory_allowed.
  - intros allowed fallback s. apply safeEnum_allowed.
Qed.

Lemma safeCategory_safeEnum_witness :
  "afternoon" ∈ times_of_day.
Proof.
  destruct (safeCategory_safeEnum (VStr "noon")) as (_ & _ & _ & H).
  apply (H times_of_day "afternoon" "afternoon").
  - unfold times_of_day. apply list_elem_of_further, list_elem_of_here.
  - reflexivity.
Defined.

(** ** The shape of slugs *)

Section SlugFacts.

Implicit Types (s : string) (c : ascii) (b : bool).

Lemma replace_runs_shape b s : slug_shape b (replace_runs b s) = true.
Proof.
  revert b. induction s as [|c s IH]; intros b; simpl; [reflexivity|].
  destruct (is_alnum c) eqn:Hc; simpl.
  - by rewrite Hc.
  - destruct b; [apply IH|]. simpl. apply IH.
Qed.

Lemma slug_shape_weaken s : slug_shape true s = true -> slug_shape false s = true.
Proof.
  destruct s as [|c s]; simpl; [done|].
  destruct (is_alnum c); [done|]. by rewrite andb_false_r.
Qed.

Lemma strip_leading_other c s :
  c <> "-"%char -> strip_leading_hyphen (String c s) = String c s.
Proof.
  intros Hc. destruct c as [[] [] [] [] [] [] [] []]; try reflexivity.
  by destruct Hc.
Qed.

Lemma strip_leading_shape s :
  slug_shape false s = true -> slug_shape true (strip_leading_hyphen s) = true.
Proof.
  destruct s as [|c s]; [done|].
  destruct (Ascii.eqb_spec c "-") as [->|Hc].
  - simpl. by intros ->.
  - rewrite strip_leading_other by done. simpl.
    destruct (is_alnum c); [done|]. apply Ascii.eqb_neq in Hc. by rewrite Hc.
Qed.

Lemma strip_leading_fixed s :
  slug_shape true s = true -> strip_leading_hyphen s = s.
Proof.
  destruct s as [|c s]; [done|]. intros Hs. apply strip_leading_other.
  intros ->. simpl in Hs. discriminate Hs.
Qed.

Lemma strip_trailing_cons c s :
  strip_trailing_hyphen (String c s) =
  match s with
  | EmptyString => if Ascii.eqb c "-" then EmptyString else String c EmptyString
  | String _ _ => String c (strip_trailing_hyphen s)
  end.
Proof. by destruct s. Qed.

Lemma strip_trailing_shape b s :
  slug_shape b s = true -> slug_shape b (strip_trailing_hyphen s) = true.
Proof.
  revert b. induction s as [|c s IH]; intros b; [done|].
  rewrite strip_trailing_cons. destruct s as [|d s].
  - destruct (Ascii.eqb c "-"); [done|]. done.
  - cbn [slug_shape]. destruct (is_alnum c).
    + apply IH.
    + intros [[-> ->]%andb_prop Hs]%andb_prop. simpl (_ && _).
      by apply IH.
Qed.

Lemma length_strip_trailing s :
  (String.length (strip_trailing_hyphen s) <= String.length s)%nat.
Proof.
  induction s as [|c s IH]; [done|]. rewrite strip_trailing_cons.
  destruct s as [|d s]; [destruct (Ascii.eqb c "-"); simpl; lia|].
  simpl in *. lia.
Qed.

Lemma strip_trailing_not_empty s :
  slug_shape true s = true -> Str.is_empty s = false ->
  Str.is_empty (strip_trailing_hyphen s) = false.
Proof.
  destruct s as [|c s]; [done|]. intros Hs _. rewrite strip_trailing_cons.
  destruct s; [|done]. simpl in Hs.
  destruct (Ascii.eqb c "-") eqn:Hc; [|done].
  apply Ascii.eqb_eq in Hc as ->. discriminate Hs.
Qed.

Lemma substring0_shape b (n : nat) s :
  slug_shape b s = true -> slug_shape b (substring 0 n s) = true.
Proof.
  revert b s. induction n as [|n IH]; intros b [|c s]; simpl; try done.
  destruct (is_alnum c); [apply IH|].
  intros [-> Hs]%andb_prop. simpl. by apply IH.
Qed.

Lemma substring0_all s : substring 0 (String.length s) s = s.
Proof. induction s as [|c s IH]; simpl; [done|]. by rewrite IH. Qed.

Lemma substring0_ge (n : nat) s :
  (String.length s <= n)%nat -> substring 0 n s = s.
Proof.
  revert s. induction n as [|n IH]; intros [|c s]; simpl; try done; try lia.
  intros Hn. rewrite IH; [done|lia].
Qed.

(** A slice from the start, with a non-negative end. *)
Lemma slice0_substring s (k : Z) :
  0 <= k ->
  Str.slice s 0 k = substring 0 (Z.to_nat (Z.min k (Str.length s))) s.
Proof.
  intros Hk. unfold Str.slice, Str.clamp_index.
  assert (Hlen : 0 <= Str.length s) by (unfold Str.length; lia).
  replace (0 <? 0) with false by reflexivity.
  replace (k <? 0) with false by lia.
  rewrite (Z.min_l 0) by lia. change (Z.to_nat 0) with 0%nat.
  f_equal. lia.
Qed.

Lemma slice0_all s (k : Z) : Str.length s <= k -> Str.slice s 0 k = s.
Proof.
  intros Hk. assert (Hlen : 0 <= Str.length s) by (unfold Str.length; lia).
  rewrite slice0_substring by lia. apply substring0_ge.
  unfold Str.length in *. lia.
Qed.

Lemma lower_char_alnum c : is_alnum c = true -> Str.lower_char c = c.
Proof.
  destruct c as [[] [] [] [] [] [] [] []]; intros H;
    try reflexivity; discriminate H.
Qed.

Lemma toLowerCase_shape b s :
  slug_shape b s = true -> Str.toLowerCase s = s.
Proof.
  revert b. induction s as [|c s IH]; intros b; simpl; [done|].
  destruct (is_alnum c) eqn:Hc.
  - intros Hs. by rewrite lower_char_alnum, (IH false).
  - intros [[->%Ascii.eqb_eq _]%andb_prop Hs]%andb_prop.
    by rewrite (IH true).
Qed.

Lemma replace_runs_fixed b s :
  slug_shape b s = true -> replace_runs b s = s.
Proof.
  revert b. induction s as [|c s IH]; intros b; simpl; [done|].
  destruct (is_alnum c) eqn:Hc.
  - intros Hs. by rewrite (IH false).
  - intros [[->%Ascii.eqb_eq Hb]%andb_prop Hs]%andb_prop.
    destruct b; [discriminate Hb|]. by rewrite (IH true).
Qed.

(** The text of a slug before the fallback has the shape of a slug and at
    most 64 characters. *)
Lemma slug_text_shape (v : value) (t : string) :
  slug_text v = Ok t -> slug_shape true t = true /\ Str.length t <= 64.
Proof.
  unfold slug_text.
  destruct (ToString (or_else v (VStr ""))) as [x|e]; cbn [bind];
    [|discriminate].
  intros [= <-]. split; [|by apply length_slice0].
  rewrite slice0_substring by lia. apply substring0_shape.
  unfold strip_edge_hyphens. apply strip_trailing_shape, strip_leading_shape.
  apply replace_runs_shape.
Qed.

(** The slug of a slug. *)
Lemma slugify_slug s :
  slug_shape true s = true -> Str.is_empty s = false -> Str.length s <= 64 ->
  slugify (VStr s) = Ok (strip_trailing_hyphen s).
Proof.
  intros Hs Hne Hl. unfold slugify, slug_text.
  rewrite ToString_or_empty. cbn [bind].
  rewrite (toLowerCase_shape true s Hs).
  rewrite (replace_runs_fixed false s) by by apply slug_shape_weaken.
  unfold strip_edge_hyphens. rewrite (strip_leading_fixed s Hs).
  rewrite slice0_all.
  - by rewrite strip_trailing_not_empty.
  - pose proof (length_strip_trailing s). unfold Str.length in *. lia.
Qed.

End SlugFacts.

Lemma slugify_has_shape (v : value) (t : string) :
  slugify v = Ok t ->
  slug_shape true t = true /\ 1 <= Str.length t <= 64.
Proof.
  unfold slugify. destruct (slug_text v) as [r|e] eqn:Hr; cbn [bind];
    [|discriminate].
  destruct (slug_text_shape v r Hr) as [Hs Hl].
  destruct r as [|c r]; simpl; intros [= <-]; [by vm_compute|].
  split; [exact Hs|]. split; [|exact Hl].
  unfold Str.length. simpl. lia.
Qed.

(** [safeId] never takes its fallback. *)
Lemma safeId_slugify (suffix : string) (v : value) : safeId suffix v = slugify v.
Proof.
  unfold safeId. destruct (slugify v) as [t|e] eqn:Ht; cbn [bind];
    [|reflexivity].
  by rewrite (slugify_not_empty v t Ht).
Qed.

Lemma slugify_returns (v : value) :
  returns (slugify v) = returns (ToString (or_else v (VStr ""))).
Proof.
  unfold slugify, slug_text.
  destruct (ToString (or_else v (VStr ""))) as [x|e]; cbn [bind];
    [|reflexivity].
  by destruct (Str.is_empty _).
Qed.

(** X5. [slugify] and [safeId] return exactly when the conversion
    [String(s || "")] does. What they return is never empty, has at most 64
    characters, all of them in [a-z0-9-], never two hyphens in a row, and
    no hyphen first. *)
Theorem slugify_shape (v : value) :
  returns (slugify v) = returns (ToString (or_else v (VStr "")))
  /\ (forall suffix : string,
        returns (safeId suffix v) = returns (ToString (or_else v (VStr ""))))
  /\ (forall t : string,
        slugify v = Ok t ->
        slug_shape true t = true /\ 1 <= Str.length t <= 64)
  /\ (forall suffix t : string,
        safeId suffix v = Ok t ->
        slug_shape true t = true /\ 1 <= Str.length t <= 64).
Proof.
  split; [apply slugify_returns|]. split; [|split].
  - intros suffix. rewrite safeId_slugify. apply slugify_returns.
  - apply slugify_has_shape.
  - intros suffix t. rewrite safeId_slugify. apply slugify_has_shape.
Qed.

Lemma slugify_shape_witness :
  slug_shape true "bel-m-tower" = true
  /\ 1 <= Str.length "bel-m-tower" <= 64.
Proof.
  destruct (slugify_shape (VStr belem_tower)) as (_ & _ & H & _).
  apply H. vm_compute. reflexivity.
Defined.

(** X6. Slugifying a slug removes its trailing hyphen, if the cut at 64
    characters left one, and changes nothing else; so the identifier that the
    handler derives from the name of a candidate without [id], which is
    slugified twice, is the slug of the name without its trailing hyphen. *)
Theorem slugify_twice (v : value) :
  (let* t := slugify v in slugify (VStr t))
  = (let* t := slugify v in Ok (strip_trailing_hyphen t))
  /\ (forall suffix : string,
        (let* t := slugify v in safeId suffix (or_else VUndefined (VStr t)))
        = (let* t := slugify v in Ok (strip_trailing_hyphen t)))
  /\ (forall (suffix : string) (c : value) (name : string),
        truthy (prop c "id") = false ->
        (let* a := id_or_slug c name in safeId suffix a)
        = (let* t := slugify (VStr name) in Ok (strip_trailing_hyphen t))).
Proof.
  assert (H : forall x,
            (let* t := slugify x in slugify (VStr t))
            = (let* t := slugify x in Ok (strip_trailing_hyphen t))).
  { intros x. destruct (slugify x) as [t|e] eqn:Ht; cbn [bind]; [|reflexivity].
    destruct (slugify_has_shape x t Ht) as [Hs Hl].
    apply slugify_slug; [done|by apply (slugify_not_empty x)|lia]. }
  split; [apply H|]. split.
  - intros suffix. rewrite <- H.
    destruct (slugify v) as [t|e]; cbn [bind]; [|reflexivity].
    change (or_else VUndefined (VStr t)) with (VStr t).
    apply safeId_slugify.
  - intros suffix c name Hid. unfold id_or_slug. rewrite Hid.
    rewrite <- H.
    destruct (slugify (VStr name)) as [t|e]; cbn [bind]; [|reflexivity].
    apply safeId_slugify.
Qed.

(** A name whose slug is cut just after a hyphen: the slug ends in a hyphen,
    the identifier does not. *)
Lemma slugify_twice_witness :
  let name := "aaaaaaaaaaaaaaaaaaaaaaaaaaaaaaaaaaaaaaaaaaaaaaaaaaaaaaaaaaaaaaa bridge" in
  slugify (VStr name)
  = Ok "aaaaaaaaaaaaaaaaaaaaaaaaaaaaaaaaaaaaaaaaaaaaaaaaaaaaaaaaaaaaaaa-"
  /\ (let* a := id_or_slug (VObj [("name", VStr name)]) name in safeId "" a)
     = Ok "aaaaaaaaaaaaaaaaaaaaaaaaaaaaaaaaaaaaaaaaaaaaaaaaaaaaaaaaaaaaaaa".
Proof.
  intros name. split; [reflexivity|].
  destruct (slugify_twice (VStr name)) as (_ & _ & H).
  rewrite (H "" (VObj [("name", VStr name)]) name eq_refl). reflexivity.
Defined.

(** ** More on [dedupePlaces] *)

Lemma sublist_same_length {A : Type} (l1 l2 : list A) :
  l1 `sublist_of` l2 -> (List.length l2 <= List.length l1)%nat -> l1 = l2.
Proof.
  induction 1 as [|x l1 l2 Hsub IH|x l1 l2 Hsub IH]; simpl; intros Hlen.
  - reflexivity.
  - f_equal. apply IH. lia.
  - apply sublist_length in Hsub. lia.
Qed.

(** X7. [dedupePlaces] returns its input unchanged exactly when the keys of
    the places are pairwise different; otherwise the output is strictly
    shorter. *)
Theorem dedupePlaces_fixed_iff (ps : list place) :
  (dedupePlaces ps = ps <-> NoDup (dedupe_key <$> ps))
  /\ (~ NoDup (dedupe_key <$> ps) ->
      (List.length (dedupePlaces ps) < List.length ps)%nat).
Proof.
  assert (Hiff : dedupePlaces ps = ps <-> NoDup (dedupe_key <$> ps)).
  { rewrite dedupePlaces_first_per_key. unfold first_per_key. split.
    - intros <-. apply first_per_key_from_NoDup.
    - intros Hnd. apply first_per_key_from_fixed; [done|].
      intros p _. simpl. apply not_elem_of_nil. }
  split; [exact Hiff|]. intros Hdup.
  pose proof (dedupePlaces_sublist ps) as Hsub.
  pose proof (sublist_length _ _ Hsub) as Hlen.
  destruct (decide (List.length (dedupePlaces ps) = List.length ps)) as [Heq|];
    [|lia].
  destruct Hdup. apply Hiff. apply sublist_same_length; [done|lia].
Qed.

Lemma dedupePlaces_fixed_iff_witness :
  (List.length
     (dedupePlaces
        [sample_place "alfama" "Alfama"; sample_place "ALFAMA" "alfama"])
   < 2)%nat.
Proof.
  destruct (dedupePlaces_fixed_iff
              [sample_place "alfama" "Alfama"; sample_place "ALFAMA" "alfama"])
    as [_ H].
  apply H. intros Hnd. apply NoDup_cons in Hnd as [Hnotin _].
  apply Hnotin. apply list_elem_of_here.
Defined.

Section KeyFacts.

Implicit Types (a b x y s : string) (c : ascii).

Lemma lower_char_bar c : Str.lower_char c = "|"%char -> c = "|"%char.
Proof.
  destruct c as [[] [] [] [] [] [] [] []]; intros H;
    try reflexivity; discriminate H.
Qed.

Lemma toLowerCase_no_bar s :
  has_char "|" s = false -> has_char "|" (Str.toLowerCase s) = false.
Proof.
  induction s as [|c s IH]; simpl; [done|].
  intros [Hc Hs]%orb_false_elim. rewrite (IH Hs), orb_false_r.
  apply Ascii.eqb_neq. intros Hl. apply lower_char_bar in Hl.
  by apply Ascii.eqb_neq in Hc.
Qed.

Lemma append_bar_inj a b x y :
  has_char "|" a = false -> has_char "|" b = false ->
  a ++ String "|" x = b ++ String "|" y -> a = b /\ x = y.
Proof.
  revert b. induction a as [|c a IH]; intros [|d b]; simpl.
  - by intros _ _ [= ->].
  - intros _ [Hd _]%orb_false_elim [= <- _]. discriminate Hd.
  - intros [Hc _]%orb_false_elim _ [= -> _]. discriminate Hc.
  - intros [_ Ha]%orb_false_elim [_ Hb]%orb_false_elim [= -> Heq].
    destruct (IH b Ha Hb Heq) as [-> ->]. done.
Qed.

Lemma slug_shape_no_bar (after : bool) s :
  slug_shape after s = true -> has_char "|" s = false.
Proof.
  revert after. induction s as [|c s IH]; intros after; simpl; [done|].
  destruct (is_alnum c) eqn:Hc.
  - intros Hs. rewrite (IH false Hs), orb_false_r.
    apply Ascii.eqb_neq. by intros ->.
  - intros [[->%Ascii.eqb_eq _]%andb_prop Hs]%andb_prop.
    by rewrite (IH true Hs).
Qed.

End KeyFacts.

(** X8. For places whose [id] holds no vertical bar, as every identifier
    made by [safeId], two keys are equal only if the lower-cased ids are
    equal and the lower-cased names are equal: [dedupePlaces] never merges
    places that differ in one of them. *)
Theorem dedupe_key_injective (p q : place) :
  has_char "|" (Place.id p) = false ->
  has_char "|" (Place.id q) = false ->
  (dedupe_key p = dedupe_key q <->
   Str.toLowerCase (Place.id p) = Str.toLowerCase (Place.id q)
   /\ Str.toLowerCase (Place.name p) = Str.toLowerCase (Place.name q))
  /\ forall (suffix : string) (v : value) (t : string),
       safeId suffix v = Ok t -> has_char "|" t = false.
Proof.
  intros Hp Hq. split.
  - split.
    + unfold dedupe_key. intros Hk.
      by apply (append_bar_inj _ _ _ _ (toLowerCase_no_bar _ Hp)
                  (toLowerCase_no_bar _ Hq)) in Hk.
    + intros [Hid Hname]. by apply dedupe_key_pair.
  - intros suffix v t. rewrite safeId_slugify. intros Ht.
    destruct (slugify_has_shape v t Ht) as [Hs _].
    by eapply slug_shape_no_bar.
Qed.

Lemma dedupe_key_injective_witness :
  dedupe_key (sample_place "alfama" "Alfama")
  = dedupe_key (sample_place "ALFAMA" "alfama")
  <-> Str.toLowerCase "alfama" = Str.toLowerCase "ALFAMA"
      /\ Str.toLowerCase "Alfama" = Str.toLowerCase "alfama".
Proof.
  destruct (dedupe_key_injective (sample_place "alfama" "Alfama")
              (sample_place "ALFAMA" "alfama")) as [H _];
    [reflexivity|reflexivity|exact H].
Defined.

(** With a vertical bar in an [id], places that differ in both fields can
    share a key. *)
Example dedupe_key_bar_collision :
  dedupe_key (sample_place "a|b" "c") = dedupe_key (sample_place "a" "b|c").
Proof. reflexivity. Qed.

(** ** [extractJsonObject] *)

Section ExtractFacts.

Implicit Types (s t pre mid post rest : string) (c : ascii) (i last : Z).

Lemma length_append s t :
  String.length (s ++ t) = (String.length s + String.length t)%nat.
Proof. induction s as [|c s IH]; simpl; [done|]. by rewrite IH. Qed.

Lemma append_snoc s c t : (s ++ String c EmptyString) ++ t = s ++ String c t.
Proof.
  induction s as [|a s IH]; [done|]. exact (f_equal (String a) IH).
Qed.

Lemma indexOf_from_none c t i : has_char c t = false -> indexOf_from c t i = -1.
Proof.
  revert i. induction t as [|a t IH]; intros i; simpl; [done|].
  intros [-> Ht]%orb_false_elim. by apply IH.
Qed.

Lemma indexOf_from_first c pre rest i :
  has_char c pre = false ->
  indexOf_from c (pre ++ String c rest) i = i + Str.length pre.
Proof.
  revert i. unfold Str.length.
  induction pre as [|a pre IH]; intros i; simpl.
  - intros _. rewrite Ascii.eqb_refl. lia.
  - intros [-> Hp]%orb_false_elim. rewrite IH by done. lia.
Qed.

Lemma lastIndexOf_from_none c t i last :
  has_char c t = false -> lastIndexOf_from c t i last = last.
Proof.
  revert i last. induction t as [|a t IH]; intros i last; simpl; [done|].
  intros [-> Ht]%orb_false_elim. by apply IH.
Qed.

Lemma lastIndexOf_from_last c s post i last :
  has_char c post = false ->
  lastIndexOf_from c (s ++ String c post) i last = i + Str.length s.
Proof.
  revert i last. unfold Str.length.
  induction s as [|a s IH]; intros i last Hp; simpl.
  - rewrite Ascii.eqb_refl, lastIndexOf_from_none by done. lia.
  - rewrite IH by done. lia.
Qed.

(** The last index found lies before the end of the string. *)
Lemma lastIndexOf_from_bound c s i last :
  last < i + Str.length s -> lastIndexOf_from c s i last < i + Str.length s.
Proof.
  revert i last. unfold Str.length.
  induction s as [|a s IH]; intros i last; simpl String.length; simpl.
  - lia.
  - intros Hl. specialize (IH (i + 1) (if Ascii.eqb a c then i else last)).
    destruct (Ascii.eqb a c); lia.
Qed.

Lemma lastIndexOf_from_app c s t i last :
  lastIndexOf_from c (s ++ t) i last =
  lastIndexOf_from c t (i + Str.length s) (lastIndexOf_from c s i last).
Proof.
  revert i last. unfold Str.length.
  induction s as [|a s IH]; intros i last; simpl.
  - f_equal. lia.
  - rewrite IH. f_equal. lia.
Qed.

Lemma substring_skip pre s (n : nat) :
  substring (String.length pre) n (pre ++ s) = substring 0 n s.
Proof. induction pre as [|a pre IH]; simpl; [done|]. apply IH. Qed.

Lemma substring0_prefix s post :
  substring 0 (String.length s) (s ++ post) = s.
Proof.
  induction s as [|a s IH]; simpl; [by destruct post|]. by rewrite IH.
Qed.

(** The slice that covers exactly the middle of three parts. *)
Lemma slice_middle pre s post :
  Str.slice (pre ++ s ++ post) (Str.length pre) (Str.length pre + Str.length s)
  = s.
Proof.
  unfold Str.slice, Str.clamp_index, Str.length.
  rewrite !length_append.
  pose proof (Nat2Z.is_nonneg (String.length pre)) as Hp.
  pose proof (Nat2Z.is_nonneg (String.length s)) as Hs.
  destruct (Z.ltb_spec (Z.of_nat (String.length pre)) 0); [lia|].
  destruct (Z.ltb_spec
              (Z.of_nat (String.length pre) + Z.of_nat (String.length s)) 0);
    [lia|].
  rewrite !Z.min_l by lia. rewrite Nat2Z.id.
  replace (Z.to_nat _) with (String.length s) by lia.
  rewrite substring_skip. apply substring0_prefix.
Qed.

End ExtractFacts.

(** X9. [extractJsonObject] raises what the conversion [String(text || "")]
    raises, and otherwise works on the trimmed text of its argument: it
    cuts away what comes before the first opening brace and what comes
    after the last closing brace; a text without opening brace, or without
    closing brace after the first opening one, is returned whole. *)
Theorem extractJsonObject_spec (text : value) (pre mid post : string) :
  (forall e, ToString (or_else text (VStr "")) = Throw e ->
     extractJsonObject text = Throw e)
  /\ (forall s,
        ToString (or_else text (VStr "")) = Ok s ->
        (has_char "{" pre = false -> has_char "}" post = false ->
         Str.trim s = pre ++ String "{" (mid ++ String "}" post) ->
         extractJsonObject text = Ok (String "{" (mid ++ String "}" EmptyString)))
        /\ (has_char "{" (Str.trim s) = false ->
            extractJsonObject text = Ok (Str.trim s))
        /\ (has_char "{" pre = false -> has_char "}" post = false ->
            Str.trim s = pre ++ String "{" post ->
            extractJsonObject text = Ok (pre ++ String "{" post))).
Proof.
  unfold extractJsonObject.
  split; [by intros e ->|]. intros s ->. cbn [bind].
  set (t := Str.trim s). clearbody t.
  split; [|split].
  - intros Hpre Hpost ->.
    rewrite !indexOf_from_first by done.
    change (pre ++ String "{" (mid ++ String "}" post))
      with (pre ++ (String "{" mid) ++ String "}" post).
    rewrite (lastIndexOf_from_app "}" pre), lastIndexOf_from_last by done.
    assert (H0 : 0 <= Str.length pre) by (unfold Str.length; lia).
    assert (H1 : 0 <= Str.length mid) by (unfold Str.length; lia).
    replace (Str.length (String "{" mid)) with (1 + Str.length mid)
      by (unfold Str.length; simpl String.length; lia).
    destruct (Z.leb_spec 0 (0 + Str.length pre)); [|lia].
    destruct (Z.ltb_spec (0 + Str.length pre)
                (0 + Str.length pre + (1 + Str.length mid))); [|lia].
    cbn [andb].
    replace (pre ++ String "{" mid ++ String "}" post)
      with (pre ++ (String "{" (mid ++ String "}" EmptyString)) ++ post).
    + replace (0 + Str.length pre + (1 + Str.length mid) + 1)
        with (Str.length pre
              + Str.length (String "{" (mid ++ String "}" EmptyString))).
      * replace (0 + Str.length pre) with (Str.length pre) by lia.
        f_equal. apply slice_middle.
      * unfold Str.length. simpl String.length. rewrite length_append.
        simpl String.length. lia.
    + f_equal. exact (f_equal (String "{") (append_snoc mid "}" post)).
  - intros Hnone. rewrite !indexOf_from_none by done. reflexivity.
  - intros Hpre Hpost ->.
    rewrite !indexOf_from_first by done.
    change (String "{" post) with (String "{" EmptyString ++ post).
    rewrite (lastIndexOf_from_app "}" pre).
    rewrite (lastIndexOf_from_app "}" (String "{" EmptyString)).
    rewrite (lastIndexOf_from_none "}" post) by done.
    simpl (lastIndexOf_from "}" (String "{" EmptyString) _ _).
    assert (Hb : lastIndexOf_from "}" pre 0 (-1) < 0 + Str.length pre).
    { apply lastIndexOf_from_bound. unfold Str.length. lia. }
    destruct (Z.ltb_spec (0 + Str.length pre) (lastIndexOf_from "}" pre 0 (-1)));
      [lia|].
    by rewrite andb_false_r.
Qed.

(** The reply of a model that wraps its JSON in prose. *)
Lemma extractJsonObject_spec_witness :
  extractJsonObject (VStr "  Here you go: {places} Enjoy!  ") = Ok "{places}"
  /\ extractJsonObject (VStr " no object here ") = Ok "no object here"
  /\ extractJsonObject (VStr "} and {") = Ok "} and {"
  /\ extractJsonObject (VObj [("toString", VStr "{}")]) = Throw not_primitive.
Proof.
  split; [|split; [|split]].
  - destruct (extractJsonObject_spec (VStr "  Here you go: {places} Enjoy!  ")
                "Here you go: " "places" " Enjoy!") as (_ & H).
    destruct (H _ eq_refl) as (H1 & _). apply H1; reflexivity.
  - destruct (extractJsonObject_spec (VStr " no object here ") "" "" "")
      as (_ & H).
    destruct (H _ eq_refl) as (_ & H2 & _). apply H2; reflexivity.
  - destruct (extractJsonObject_spec (VStr "} and {") "} and " "" "")
      as (_ & H).
    destruct (H _ eq_refl) as (_ & _ & H3). apply H3; reflexivity.
  - destruct (extractJsonObject_spec (VObj [("toString", VStr "{}")]) "" "" "")
      as (H & _).
    apply H. reflexivity.
Defined.

(** ** The answers of the handler *)

(** X10. Any method other than POST is answered 405 "Method Not Allowed",
    whatever the body and the world. *)
Theorem method_not_allowed (w : world) (req : request) :
  method req <> "POST" -> handler w req = Send 405 "Method Not Allowed".
Proof.
  intros Hm. unfold handler, handler_try.
  apply String.eqb_neq in Hm. by rewrite Hm.
Qed.

Lemma method_not_allowed_witness :
  handler bare_world {| method := "GET"; body := VUndefined |}
  = Send 405 "Method Not Allowed".
Proof. apply method_not_allowed. discriminate. Defined.

(** X11. A POST request whose destination is a non-blank string, whose
    [max_places] converts and whose [ask] trims is answered 500 "Server
    missing OPENAI_API_KEY" when that credential is unset or empty, and 500
    "Server missing MAPBOX_TOKEN" when only the geocoder token is; neither
    service is consulted. *)
Theorem missing_credentials (w : world) (req : request) (dq ask : string)
    (maxPlaces : number) :
  method req = "POST" ->
  trim_method or_empty
    (or_else (prop (trip_of req) "destination_query") (VStr "")) = Ok dq ->
  Str.is_empty dq = false ->
  maxPlaces_of req = Ok maxPlaces ->
  trim_method or_empty
    (or_else (prop (trip_of req) "ask") (VStr "")) = Ok ask ->
  (unset (OPENAI_API_KEY w) = true ->
   handler w req = Send 500 "Server missing OPENAI_API_KEY")
  /\ (unset (OPENAI_API_KEY w) = false -> unset (MAPBOX_TOKEN w) = true ->
      handler w req = Send 500 "Server missing MAPBOX_TOKEN").
Proof.
  intros Hm Hd Hb Hmax Ha.
  unfold handler, handler_try. rewrite Hm.
  change (negb ("POST" =? "POST")%string) with false. cbv iota.
  fold (trip_of req). fold (options_of req). rewrite Hd. cbn [bind].
  rewrite Hb. fold (maxPlaces_of req). rewrite Hmax. cbn [bind].
  rewrite Ha. cbn [bind].
  split.
  - by intros ->.
  - by intros -> ->.
Qed.

Lemma missing_credentials_witness :
  handler bare_world lisbon_request = Send 500 "Server missing OPENAI_API_KEY".
Proof.
  destruct (missing_credentials bare_world lisbon_request "Lisbon" "" fifteen)
    as [H _]; [reflexivity|reflexivity|reflexivity|reflexivity|reflexivity|].
  apply H. reflexivity.
Defined.

(** For an accepted request the prompt is built, and the chat endpoint is
    called. *)
Lemma getCandidates_accepted (w : world) (req : request) (dq ask : string)
    (maxPlaces : number) :
  accepted w req dq ask maxPlaces ->
  getCandidatePlacesFromLLM w (llm_request_of w req dq ask maxPlaces) =
  match openai w (llm_request_of w req dq ask maxPlaces) with
  | FetchFails e => Throw e
  | Response ok status statusText t json =>
      if negb ok then Throw (upstream_error "OpenAI error" status statusText t)
      else
        let* data := json in
        let* text := extractJsonObject (content_of data) in
        let parsed := safeJsonParse w text in
        if negb (truthy parsed)
        then Throw (Error "LLM did not return valid JSON.")
        else Ok parsed
  end.
Proof.
  intros [_ _ _ _ _ _ _ Hi]. unfold getCandidatePlacesFromLLM.
  cbn [llm_interests llm_request_of].
  by destruct (Array_join ", " (interests_of req)).
Qed.

(** An exception of [getCandidatePlacesFromLLM] ends in the [catch]
    block. *)
Lemma handler_llm_throw (w : world) (req : request) (dq ask : string)
    (maxPlaces : number) (e : error) :
  accepted w req dq ask maxPlaces ->
  getCandidatePlacesFromLLM w (llm_request_of w req dq ask maxPlaces)
  = Throw e ->
  handler w req = error_response e.
Proof.
  intros Hacc Hllm.
  by rewrite (handler_accepted w req dq ask maxPlaces Hacc), Hllm.
Qed.

(** X12. For a request that reaches the chat endpoint ([accepted]): when
    the endpoint cannot be reached, the request is answered 500 with the
    message of the failure; when it answers with a status that is not ok,
    500 with "OpenAI error (status): " and the body of the answer, or its
    status text when the body is empty; when the content of its answer does
    not convert to a string, 500 with the message of that failure; and when
    the text it returns does not parse, or parses to a falsy value, 500 with
    "LLM did not return valid JSON.". *)
Theorem llm_failures (w : world) (req : request) (dq ask : string)
    (maxPlaces : number) :
  accepted w req dq ask maxPlaces ->
  (forall e,
     openai w (llm_request_of w req dq ask maxPlaces) = FetchFails e ->
     handler w req = error_response e)
  /\ (forall status statusText text json,
        openai w (llm_request_of w req dq ask maxPlaces)
        = Response false status statusText text json ->
        handler w req =
        Send 500
          ("OpenAI error (" ++ NumStr.to_string status ++ "): "
           ++ (if Str.is_empty text then statusText else text)))
  /\ (forall status statusText text data e,
        openai w (llm_request_of w req dq ask maxPlaces)
        = Response true status statusText text (Ok data) ->
        extractJsonObject (content_of data) = Throw e ->
        handler w req = error_response e)
  /\ (forall status statusText text data extracted,
        openai w (llm_request_of w req dq ask maxPlaces)
        = Response true status statusText text (Ok data) ->
        extractJsonObject (content_of data) = Ok extracted ->
        truthy (safeJsonParse w extracted) = false ->
        handler w req = Send 500 "LLM did not return valid JSON.").
Proof.
  intros Hacc. split; [|split; [|split]].
  - intros e He. apply (handler_llm_throw w req dq ask maxPlaces e Hacc).
    rewrite (getCandidates_accepted w req dq ask maxPlaces Hacc). by rewrite He.
  - intros status statusText text json Hr.
    rewrite (handler_llm_throw w req dq ask maxPlaces
               (upstream_error "OpenAI error" status statusText text) Hacc).
    + reflexivity.
    + rewrite (getCandidates_accepted w req dq ask maxPlaces Hacc).
      by rewrite Hr.
  - intros status statusText text data e Hr He.
    apply (handler_llm_throw w req dq ask maxPlaces e Hacc).
    rewrite (getCandidates_accepted w req dq ask maxPlaces Hacc), Hr.
    cbn [negb bind]. by rewrite He.
  - intros status statusText text data extracted Hr Hx Hfalsy.
    rewrite (handler_llm_throw w req dq ask maxPlaces
               (Error "LLM did not return valid JSON.") Hacc).
    + reflexivity.
    + rewrite (getCandidates_accepted w req dq ask maxPlaces Hacc), Hr.
      cbn [negb bind]. rewrite Hx. cbn [bind]. by rewrite Hfalsy.
Qed.

Lemma llm_accepted answer parse :
  accepted (llm_world answer parse) lisbon_request "Lisbon" "" fifteen.
Proof. by constructor. Qed.

Lemma llm_failures_witness :
  handler
    (llm_world (Response false (Num.of_Z 401) "Unauthorized" "" (Ok VNull))
       (fun _ => None))
    lisbon_request
  = Send 500 "OpenAI error (401): Unauthorized"
  /\ handler
       (llm_world
          (ok_response
             (VObj [("choices",
                     VArr [VObj [("message",
                                  VObj [("content", VStr "Sorry, no.")])]])]))
          (fun _ => None))
       lisbon_request
     = Send 500 "LLM did not return valid JSON."
  /\ handler
       (llm_world
          (ok_response
             (VObj [("choices",
                     VArr [VObj [("message",
                                  VObj [("content",
                                         VObj [("toString", VNull)])])]])]))
          (fun _ => None))
       lisbon_request
     = Send 500 "Cannot convert object to primitive value".
Proof.
  split; [|split].
  - destruct (llm_failures
                (llm_world
                   (Response false (Num.of_Z 401) "Unauthorized" "" (Ok VNull))
                   (fun _ => None))
                lisbon_request "Lisbon" "" fifteen) as (_ & H & _);
      [apply llm_accepted|].
    rewrite (H (Num.of_Z 401) "Unauthorized" "" (Ok VNull) eq_refl).
    vm_compute. reflexivity.
  - destruct (llm_failures
                (llm_world
                   (ok_response
                      (VObj [("choices",
                              VArr [VObj [("message",
                                           VObj [("content",
                                                  VStr "Sorry, no.")])]])]))
                   (fun _ => None))
                lisbon_request "Lisbon" "" fifteen) as (_ & _ & _ & H);
      [apply llm_accepted|].
    eapply H; reflexivity.
  - destruct (llm_failures
                (llm_world
                   (ok_response
                      (VObj [("choices",
                              VArr [VObj [("message",
                                           VObj [("content",
                                                  VObj [("toString",
                                                         VNull)])])]])]))
                   (fun _ => None))
                lisbon_request "Lisbon" "" fifteen) as (_ & _ & H & _);
      [apply llm_accepted|].
    rewrite (H (Num.of_Z 200) "OK" ""
               (VObj [("choices",
                       VArr [VObj [("message",
                                    VObj [("content",
                                           VObj [("toString", VNull)])])]])])
               not_primitive eq_refl eq_refl).
    reflexivity.
Defined.

(** X13. For a request that reaches the chat endpoint ([accepted]), a
    reply that parses to a truthy value whose [places] is not an array
    (missing, [null], a string, an object) is treated as an empty list of
    candidates: 200 with no places, and no geocoding. *)
Theorem reply_without_places (w : world) (req : request) (dq ask : string)
    (maxPlaces : number) (llmJson : value) :
  accepted w req dq ask maxPlaces ->
  getCandidatePlacesFromLLM w (llm_request_of w req dq ask maxPlaces)
  = Ok llmJson ->
  isArray (prop llmJson "places") = false ->
  forall geo : geocode_request -> fetched,
    handler (with_mapbox w geo) req = empty_response w dq.
Proof.
  intros Hacc Hllm Hplaces geo.
  destruct (handler_stages (with_mapbox w geo) req dq ask maxPlaces llmJson)
    as [H _].
  - by apply accepted_with_mapbox.
  - exact Hllm.
  - apply H. unfold candidates_of. by destruct (prop llmJson "places").
Qed.

Lemma reply_without_places_witness :
  handler
    (sample_world (VObj [("results", VArr [VObj [("name", VStr "Alfama")]])])
       (fun _ => FetchFails (Error "network down")))
    lisbon_request
  = Json 200
      {| destination_of := {| dest_query := "Lisbon"; bbox := None |};
         places := [];
         meta_of :=
           {| generated_at := "2025-01-01T00:00:00.000Z";
              geocode_provider := None;
              cache_hit := false |} |}.
Proof.
  apply (reply_without_places
           (sample_world
              (VObj [("results", VArr [VObj [("name", VStr "Alfama")]])])
              (fun _ => FetchFails (Error "unreachable")))
           lisbon_request "Lisbon" "" fifteen
           (VObj [("results", VArr [VObj [("name", VStr "Alfama")]])])).
  - apply lisbon_accepted.
  - reflexivity.
  - reflexivity.
Defined.

(** ** Failures and skipped candidates in the loop *)

(** The loop stops at the first candidate that raises. *)
Lemma geocode_loop_throw (w : world) (token dq : string) (destBbox c : value)
    (before after : list value) (geocoded pushed : list place) (e : error) :
  geocode_loop w token dq destBbox before geocoded = Ok pushed ->
  geocodeCandidate w token dq destBbox c = Throw e ->
  geocode_loop w token dq destBbox (before ++ c :: after) geocoded = Throw e.
Proof.
  intros Hb Hc. rewrite geocode_loop_app, Hb. simpl. by rewrite Hc.
Qed.

(** X14. There are no partial results. For a request that reached the
    language model ([accepted]) and got candidates: when the destination
    lookup fails, when the lookup of one candidate among the first
    [max_places] fails (the service cannot be reached, answers with a status
    that is not ok, or with a body that is not JSON), or when the turn of
    one of these candidates raises for another reason (a field that does not
    convert), the whole request is answered 500 with the message of that
    failure, whatever the candidates before it gave. *)
Theorem geocoder_failure_aborts (w : world) (req : request) (dq ask : string)
    (maxPlaces : number) (llmJson : value) (e : error) :
  accepted w req dq ask maxPlaces ->
  getCandidatePlacesFromLLM w (llm_request_of w req dq ask maxPlaces)
  = Ok llmJson ->
  candidates_of llmJson <> [] ->
  (mapboxGeocode w (default "" (MAPBOX_TOKEN w)) dq one "place,region,country"
     VUndefined = Throw e ->
   handler w req = error_response e)
  /\ (forall (destGeo c : value) (name : string) (before after : list value)
             (pushed : list place),
        mapboxGeocode w (default "" (MAPBOX_TOKEN w)) dq one
          "place,region,country" VUndefined = Ok destGeo ->
        array_slice0 (candidates_of llmJson) maxPlaces
        = (before ++ c :: after)%list ->
        geocode_loop w (default "" (MAPBOX_TOKEN w)) dq (destBbox_of destGeo)
          before [] = Ok pushed ->
        trim_method or_empty (or_else (prop c "name") (VStr ""))
        = Ok name ->
        Str.is_empty name = false ->
        mapboxGeocode w (default "" (MAPBOX_TOKEN w)) (name ++ ", " ++ dq) one
          "poi,neighborhood,place,address" (destBbox_of destGeo) = Throw e ->
        handler w req = error_response e)
  /\ (forall (destGeo c : value) (before after : list value)
             (pushed : list place),
        mapboxGeocode w (default "" (MAPBOX_TOKEN w)) dq one
          "place,region,country" VUndefined = Ok destGeo ->
        array_slice0 (candidates_of llmJson) maxPlaces
        = (before ++ c :: after)%list ->
        geocode_loop w (default "" (MAPBOX_TOKEN w)) dq (destBbox_of destGeo)
          before [] = Ok pushed ->
        geocodeCandidate w (default "" (MAPBOX_TOKEN w)) dq
          (destBbox_of destGeo) c = Throw e ->
        handler w req = error_response e).
Proof.
  intros Hacc Hllm Hne.
  destruct (handler_stages w req dq ask maxPlaces llmJson Hacc Hllm) as [_ H].
  rewrite (H Hne).
  assert (Hturn : forall (destGeo c : value) (before after : list value)
                         (pushed : list place),
            mapboxGeocode w (default "" (MAPBOX_TOKEN w)) dq one
              "place,region,country" VUndefined = Ok destGeo ->
            array_slice0 (candidates_of llmJson) maxPlaces
            = (before ++ c :: after)%list ->
            geocode_loop w (default "" (MAPBOX_TOKEN w)) dq (destBbox_of destGeo)
              before [] = Ok pushed ->
            geocodeCandidate w (default "" (MAPBOX_TOKEN w)) dq
              (destBbox_of destGeo) c = Throw e ->
            match mapboxGeocode w (default "" (MAPBOX_TOKEN w)) dq one
                    "place,region,country" VUndefined with
            | Throw e => error_response e
            | Ok destGeo =>
                match geocode_loop w (default "" (MAPBOX_TOKEN w)) dq
                        (destBbox_of destGeo)
                        (array_slice0 (candidates_of llmJson) maxPlaces) []
                with
                | Throw e => error_response e
                | Ok geocoded =>
                    places_response w dq (destBbox_of destGeo) geocoded
                end
            end = error_response e).
  { intros destGeo c before after pushed -> Hslice Hbefore Hc.
    rewrite Hslice.
    by rewrite (geocode_loop_throw _ _ _ _ c before after [] pushed e Hbefore). }
  split; [by intros ->|]. split.
  - intros destGeo c name before after pushed Hdest Hslice Hbefore Hname Hn Hgeo.
    apply (Hturn destGeo c before after pushed Hdest Hslice Hbefore).
    unfold geocodeCandidate. rewrite Hname. cbn [bind]. by rewrite Hn, Hgeo.
  - exact Hturn.
Qed.

Lemma geocoder_failure_aborts_witness :
  handler castle_world lisbon_request
  = Send 500 "Mapbox geocode error (429): Too Many Requests"
  /\ handler unconvertible_world lisbon_request
     = Send 500 "Cannot convert object to primitive value".
Proof.
  split.
  - destruct (geocoder_failure_aborts castle_world lisbon_request "Lisbon" ""
                fifteen
                (VObj [("places",
                        VArr [VObj [("name", VStr "Belem Tower")];
                              VObj [("name", VStr "Castle")];
                              VObj [("name", VStr "Alfama")]])])
                (upstream_error "Mapbox geocode error" (Num.of_Z 429)
                   "Too Many Requests" ""))
      as (_ & H & _); [apply lisbon_accepted|reflexivity|discriminate|].
    rewrite (H (VObj [("features", VArr [poi_feature])])
               (VObj [("name", VStr "Castle")]) "Castle"
               [VObj [("name", VStr "Belem Tower")]]
               [VObj [("name", VStr "Alfama")]] [belem_place]);
      first [reflexivity | vm_compute; reflexivity].
  - destruct (geocoder_failure_aborts unconvertible_world lisbon_request
                "Lisbon" "" fifteen
                (VObj [("places",
                        VArr [VObj [("name", VStr "Belem Tower")];
                              VObj [("name", VStr "Alfama");
                                    ("category",
                                     VObj [("toString", VStr "food")])]])])
                not_primitive)
      as (_ & _ & H); [apply lisbon_accepted|reflexivity|discriminate|].
    rewrite (H (VObj [("features", VArr [poi_feature])])
               (VObj [("name", VStr "Alfama");
                      ("category", VObj [("toString", VStr "food")])])
               [VObj [("name", VStr "Belem Tower")]] [] [belem_place]);
      first [reflexivity | vm_compute; reflexivity].
Defined.

(** X15. A candidate without a name, or whose name is blank, is skipped
    before any lookup: nothing is pushed whatever the geocoder would
    answer. *)
Theorem unnamed_candidate_skipped (w : world) (token dq : string)
    (destBbox c : value) :
  trim_method or_empty (or_else (prop c "name") (VStr ""))
  = Ok "" ->
  forall geo : geocode_request -> fetched,
    geocodeCandidate (with_mapbox w geo) token dq destBbox c = Ok None
    /\ forall (before after : list value) (geocoded : list place),
         geocode_loop (with_mapbox w geo) token dq destBbox
           (before ++ c :: after) geocoded
         = geocode_loop (with_mapbox w geo) token dq destBbox
             (before ++ after) geocoded.
Proof.
  intros Hname geo.
  assert (Hc : geocodeCandidate (with_mapbox w geo) token dq destBbox c = Ok None).
  { unfold geocodeCandidate. by rewrite Hname. }
  split; [exact Hc|]. intros before after geocoded.
  by apply geocode_loop_skip.
Qed.

Lemma unnamed_candidate_skipped_witness :
  geocodeCandidate atlantis_world "pk.test" "Lisbon" VNull
    (VObj [("id", VStr "x1"); ("name", VStr "   ")]) = Ok None
  /\ geocodeCandidate atlantis_world "pk.test" "Lisbon" VNull (VStr "Alfama")
     = Ok None.
Proof.
  split.
  - apply (unnamed_candidate_skipped atlantis_world "pk.test" "Lisbon" VNull
             (VObj [("id", VStr "x1"); ("name", VStr "   ")]) eq_refl
             atlantis_geo).
  - apply (unnamed_candidate_skipped atlantis_world "pk.test" "Lisbon" VNull
             (VStr "Alfama") eq_refl atlantis_geo).
Defined.

(** X16. Values of the wrong type are answered 500, not 400: a
    [destination_query] or an [ask] that is truthy but not a string has no
    [trim] method, and the call raises; so does, inside the loop, a
    candidate whose name is truthy but not a string. *)
Theorem non_string_raises (w : world) (req : request) (v : value) :
  truthy v = true ->
  (forall s, v <> VStr s) ->
  (method req = "POST" ->
   prop (trip_of req) "destination_query" = v ->
   handler_status (handler w req) = 500)
  /\ (forall dq,
        method req = "POST" ->
        trim_method or_empty
          (or_else (prop (trip_of req) "destination_query") (VStr "")) = Ok dq ->
        Str.is_empty dq = false ->
        prop (trip_of req) "ask" = v ->
        handler_status (handler w req) = 500)
  /\ (forall token dq destBbox c,
        prop c "name" = v ->
        exists e, geocodeCandidate w token dq destBbox c = Throw e).
Proof.
  intros Hv Hns.
  assert (Ht : exists e, trim_method or_empty (or_else v (VStr "")) = Throw e).
  { unfold or_else. rewrite Hv. destruct v; simpl; eauto. by destruct (Hns s). }
  destruct Ht as [e Ht].
  split; [|split].
  - intros Hm Hd. unfold handler, handler_try. rewrite Hm.
    change (negb ("POST" =? "POST")%string) with false. cbv iota.
    fold (trip_of req). by rewrite Hd, Ht.
  - intros dq Hm Hd Hb Ha. unfold handler, handler_try. rewrite Hm.
    change (negb ("POST" =? "POST")%string) with false. cbv iota.
    fold (trip_of req). rewrite Hd. cbn [bind]. rewrite Hb.
    destruct (clampInt _ _ _ _); cbn [bind]; [|reflexivity].
    by rewrite Ha, Ht.
  - intros token dq destBbox c Hc. unfold geocodeCandidate.
    rewrite Hc, Ht. eauto.
Qed.

Lemma non_string_raises_witness :
  handler_status
    (handler bare_world
       {| method := "POST";
          body := VObj [("trip",
                         VObj [("destination_query", VNum lit_12)])] |})
  = 500.
Proof.
  destruct (non_string_raises bare_world
              {| method := "POST";
                 body := VObj [("trip",
                                VObj [("destination_query", VNum lit_12)])] |}
              (VNum lit_12)) as (H & _).
  - reflexivity.
  - intros s Hs. discriminate Hs.
  - apply H; reflexivity.
Defined.

(** X17. The handler answers with one of four statuses: 200 with a JSON
    body, or 400, 405 or 500 with a text; it never lets an exception
    through, and never sends a JSON body with another status. *)
Theorem handler_statuses (w : world) (req : request) :
  match handler w req with
  | Json status _ => status = 200
  | Send status _ => status = 400 \/ status = 405 \/ status = 500
  end.
Proof.
  unfold handler.
  destruct (handler_try w req) as [resp|e] eqn:Ht; [|auto].
  unfold handler_try in Ht. cbv zeta in Ht.
  repeat match type of Ht with
         | (if ?b then _ else _) = _ => destruct b
         | bind ?x _ = _ => destruct x eqn:?; cbn [bind] in Ht
         | Throw _ = Ok _ => discriminate Ht
         end;
    injection Ht as <-; auto.
Qed.

(** ** The effective [max_places] *)

Section IntegerFacts.

#[local] Instance spec_float_eq_dec : EqDecision spec_float.
Proof. solve_decision. Defined.

Lemma shr_exponent mrs e n : e <= snd (shr mrs e n).
Proof. destruct n; simpl; lia. Qed.

(** Rounding keeps the sign and does not lower the exponent. *)
Lemma binary_round_aux_cases sx mx ex lx :
  let r := binary_round_aux Num.prec Num.emax sx mx ex lx in
  r = S754_zero sx \/ r = S754_infinity sx \/ r = S754_nan
  \/ exists m e, r = S754_finite sx m e /\ ex <= e.
Proof.
  unfold binary_round_aux, shr_fexp.
  set (n1 := _ - ex).
  pose proof (shr_exponent (shr_record_of_loc mx lx) ex n1) as H1.
  destruct (shr (shr_record_of_loc mx lx) ex n1) as [mrs' e'].
  set (m2 := round_nearest_even _ _). set (n2 := _ - e').
  pose proof (shr_exponent (shr_record_of_loc m2 loc_Exact) e' n2) as H2.
  destruct (shr (shr_record_of_loc m2 loc_Exact) e' n2) as [mrs'' e''].
  simpl in *. destruct (shr_m mrs''); auto.
  destruct (e'' <=? _); auto.
  right. right. right. exists p, e''. split; [done|lia].
Qed.

Lemma digits2_pos_bound p : Zpos p < 2 ^ Zpos (digits2_pos p).
Proof.
  induction p as [p IH|p IH|]; simpl digits2_pos;
    rewrite ?Pos2Z.inj_succ, ?Z.pow_succ_r by lia; lia.
Qed.

(** The number of an integer from 32 on is, when finite, a mantissa times
    a power of two above [2^-48]: it compares above 25. *)
Lemma of_Z_pos_large p :
  32 <= Zpos p ->
  let r := Num.of_Z (Zpos p) in
  r = S754_zero false \/ r = S754_infinity false \/ r = S754_nan
  \/ exists m e, r = S754_finite false m e /\ -47 <= e.
Proof.
  intros Hp. unfold Num.of_Z, binary_normalize, binary_round, shl_align.
  assert (Hd : 6 <= Zpos (digits2_pos p)).
  { pose proof (digits2_pos_bound p) as Hb.
    destruct (Z.le_gt_cases 6 (Zpos (digits2_pos p))) as [|Hlt]; [done|].
    assert (2 ^ Zpos (digits2_pos p) <= 2 ^ 5) by (apply Z.pow_le_mono_r; lia).
    change (2 ^ 5) with 32 in *. lia. }
  set (ex' := fexp Num.prec Num.emax (Zpos (digits2_pos p) + 0)).
  assert (Hex : -47 <= ex').
  { unfold ex', fexp, emin, Num.prec, Num.emax. lia. }
  destruct (ex' - 0) eqn:Hsub.
  - destruct (binary_round_aux_cases false (Zpos p) 0 loc_Exact)
      as [H|[H|[H|(m & e & H & He)]]]; auto.
    right. right. right. exists m, e. split; [done|lia].
  - destruct (binary_round_aux_cases false (Zpos p) 0 loc_Exact)
      as [H|[H|[H|(m & e & H & He)]]]; auto.
    right. right. right. exists m, e. split; [done|lia].
  - destruct (binary_round_aux_cases false (Zpos (Pos.iter xO p p0)) ex' loc_Exact)
      as [H|[H|[H|(m & e & H & He)]]]; auto.
    right. right. right. exists m, e. split; [done|lia].
Qed.

Lemma of_Z_neg p :
  let r := Num.of_Z (Zneg p) in
  r = S754_zero true \/ r = S754_infinity true \/ r = S754_nan
  \/ exists m e, r = S754_finite true m e.
Proof.
  unfold Num.of_Z, binary_normalize, binary_round.
  destruct (shl_align _ _ _) as [mz ez].
  destruct (binary_round_aux_cases true (Zpos mz) ez loc_Exact)
      as [H|[H|[H|(m & e & H & He)]]]; eauto 10.
Qed.

Lemma clamp_small_integers :
  Forall (fun k => clamp (Num.of_Z k) five twenty_five
                   = Num.of_Z (Z.max 5 (Z.min 25 k))
                   /\ isFinite (Num.of_Z k) = true)
    (seqZ 1 31).
Proof. apply (bool_decide_unpack _). vm_compute. exact I. Qed.

Lemma trunc_small_integers :
  Forall (fun k => trunc (Num.of_Z k) = k /\ isFinite (Num.of_Z k) = true)
    (seqZ 5 21).
Proof. apply (bool_decide_unpack _). vm_compute. exact I. Qed.

Lemma bounded_places_of_Z (z : Z) :
  exists k, 5 <= k <= 25 /\ bounded_places (Num.of_Z z) = Num.of_Z k.
Proof.
  unfold bounded_places. destruct z as [|p|p].
  - exists 5. split; [lia|reflexivity].
  - destruct (Z.lt_ge_cases (Zpos p) 32) as [Hs|Hl].
    + pose proof clamp_small_integers as Hall.
      rewrite Forall_forall in Hall.
      destruct (Hall (Zpos p)) as [Hc Hf]; [apply elem_of_seqZ; lia|].
      rewrite Hf. cbn [negb]. fold (clamp (Num.of_Z (Zpos p)) five twenty_five).
      rewrite Hc. eexists. split; [|reflexivity]. lia.
    + destruct (of_Z_pos_large p Hl) as [H|[H|[H|(m & e & H & He)]]];
        rewrite H.
      * exists 5. split; [lia|reflexivity].
      * exists 15. split; [lia|reflexivity].
      * exists 15. split; [lia|reflexivity].
      * exists 25. split; [lia|]. cbn [isFinite negb].
        unfold Math_min, twenty_five. cbn [SFcompare].
        replace (-48 ?= e) with Lt by (symmetry; apply Z.compare_lt_iff; lia).
        reflexivity.
  - destruct (of_Z_neg p) as [H|[H|[H|(m & e & H)]]]; rewrite H.
    + exists 5. split; [lia|reflexivity].
    + exists 15. split; [lia|reflexivity].
    + exists 15. split; [lia|reflexivity].
    + exists 5. split; [lia|reflexivity].
Qed.

Lemma parseInt10_cases (s : string) :
  NumStr.parseInt10 s = NaN
  \/ (exists b, NumStr.parseInt10 s = S754_zero b)
  \/ exists z, NumStr.parseInt10 s = Num.of_Z z.
Proof.
  unfold NumStr.parseInt10.
  destruct (NumStr.sign _) as [neg s1].
  destruct (NumStr.digits 10 s1 0 0) as [[v cnt] rest].
  destruct (cnt =? 0); [by left|]. destruct (v =? 0); eauto.
Qed.

Lemma clampInt_text (v : value) (s : string) :
  ToString v = Ok s ->
  clampInt v five twenty_five fifteen
  = Ok (bounded_places (NumStr.parseInt10 s)).
Proof.
  intros Hs. unfold clampInt, parseInt, bounded_places. rewrite Hs.
  cbn [bind]. by destruct (isFinite _).
Qed.

Lemma bounded_places_integer (s : string) :
  exists k, 5 <= k <= 25
            /\ bounded_places (NumStr.parseInt10 s) = Num.of_Z k.
Proof.
  destruct (parseInt10_cases s) as [->|[[b ->]|[z ->]]].
  - exists 15. split; [lia|reflexivity].
  - exists 5. split; [lia|by destruct b].
  - apply bounded_places_of_Z.
Qed.

Lemma clampInt_integer (v : value) (n : number) :
  clampInt v five twenty_five fifteen = Ok n ->
  exists k, 5 <= k <= 25 /\ n = Num.of_Z k.
Proof.
  destruct (ToString v) as [s|e] eqn:Hs.
  - rewrite (clampInt_text v s Hs). intros [= <-].
    apply bounded_places_integer.
  - unfold clampInt, parseInt. by rewrite Hs.
Qed.

End IntegerFacts.

(** X18. [clampInt] raises what the conversion of its argument to a string
    raises. When the conversion gives a text, the effective [max_places] is
    one of the integers 5 to 25, whatever the text: what [clampInt] returns
    with the bounds of the handler is the number of such an integer, and
    truncates to it. *)
Theorem effective_max_places (v : value) :
  (forall e, ToString v = Throw e ->
     clampInt v five twenty_five fifteen = Throw e)
  /\ (forall s, ToString v = Ok s ->
        exists k : Z,
          5 <= k <= 25
          /\ clampInt v five twenty_five fifteen = Ok (Num.of_Z k)
          /\ isFinite (Num.of_Z k) = true
          /\ trunc (Num.of_Z k) = k).
Proof.
  split.
  - intros e He. unfold clampInt, parseInt. by rewrite He.
  - intros s Hs. rewrite (clampInt_text v s Hs).
    destruct (bounded_places_integer s) as (k & Hk & ->). exists k.
    pose proof trunc_small_integers as Hall. rewrite Forall_forall in Hall.
    destruct (Hall k) as [Ht Hf]; [apply elem_of_seqZ; lia|]. auto.
Qed.

Lemma effective_max_places_witness :
  clampInt (VObj [("toString", VNum one)]) five twenty_five fifteen
  = Throw not_primitive
  /\ exists k : Z,
       5 <= k <= 25
       /\ clampInt (VStr "7.9 places") five twenty_five fifteen
          = Ok (Num.of_Z k).
Proof.
  split.
  - destruct (effective_max_places (VObj [("toString", VNum one)])) as [H _].
    apply H. reflexivity.
  - destruct (effective_max_places (VStr "7.9 places")) as [_ H].
    destruct (H "7.9 places" eq_refl) as (k & Hk & Hc & _).
    exists k. split; [exact Hk|exact Hc].
Defined.

(** ** The places of a response *)

Lemma safeString_sanitized (v : value) (maxLen : Z) (s : string) :
  1 <= maxLen -> safeString v maxLen = Ok s -> sanitized maxLen s.
Proof. apply safeString_returns. Qed.

(** The loop keeps strings that are sanitized and not empty, and no more
    than [maxItems]. *)
Lemma safeStringArray_loop_sanitized (items : list value)
    (maxItems maxItemLen : Z) (out l : list string) :
  1 <= maxItemLen ->
  Z.of_nat (List.length out) < maxItems ->
  Forall (fun s => Str.is_empty s = false /\ sanitized maxItemLen s) out ->
  safeStringArray_loop items maxItems maxItemLen out = Ok l ->
  sanitized_list maxItems maxItemLen l.
Proof.
  intros Hm. revert out.
  induction items as [|item rest IH]; intros out Hlen Hout; simpl.
  - intros [= <-]. split; [lia|done].
  - destruct (safeString item maxItemLen) as [s|e] eqn:Hs; cbn [bind];
      [|discriminate].
    set (out' := if Str.is_empty s then out else (out ++ [s])%list).
    assert (Hout' : Forall (fun s => Str.is_empty s = false
                                     /\ sanitized maxItemLen s) out').
    { unfold out'. destruct (Str.is_empty s) eqn:He; [done|].
      apply Forall_app. split; [done|]. constructor; [|constructor].
      split; [done|]. by eapply safeString_sanitized. }
    assert (Hlen' : Z.of_nat (List.length out') <= Z.of_nat (List.length out) + 1).
    { unfold out'. destruct (Str.is_empty s); [lia|].
      rewrite length_app. simpl. lia. }
    destruct (maxItems <=? Z.of_nat (List.length out')) eqn:Hfull.
    + intros [= <-]. split; [lia|done].
    + apply Z.leb_gt in Hfull. by apply IH.
Qed.

Lemma safeStringArray_sanitized (v : value) (maxItems maxItemLen : Z)
    (l : list string) :
  1 <= maxItems -> 1 <= maxItemLen ->
  safeStringArray v maxItems maxItemLen = Ok l ->
  sanitized_list maxItems maxItemLen l.
Proof.
  intros Hn Hm. destruct v as [| | | | |items|];
    try (intros [= <-]; split; [simpl; lia|constructor]).
  unfold safeStringArray.
  apply safeStringArray_loop_sanitized; [done|simpl; lia|constructor].
Qed.

Lemma geocodeConfidence_unit (f : value) (c : number) :
  geocodeConfidence f = Ok c ->
  is_nan c = true \/ (Num.leb zero c = true /\ Num.leb c one = true).
Proof.
  unfold geocodeConfidence.
  destruct (prop f "relevance") as [| | |r| | |];
    try (destruct (includes_method _ "poi") as [[]|]; cbn [bind];
         [|destruct (includes_method _ "neighborhood") as [[]|]; cbn [bind]|];
         intros [= <-]; right; by split).
  intros [= <-]. destruct (is_nan r) eqn:Hr.
  - left. rewrite clamp_nan; [done|by rewrite Hr].
  - right. by apply clamp_between.
Qed.

Lemma geocodeCandidate_well_formed (w : world) (token dq : string)
    (destBbox c : value) (p : place) :
  geocodeCandidate w token dq destBbox c = Ok (Some p) -> well_formed p.
Proof.
  intros Hp.
  destruct (geocodeCandidate_pushed w token dq destBbox c p Hp)
    as (name & r & a & Hname & Hne & _ & _ & _ & _ & _ & _ & Hn & _ & Hid
        & Hcat & Hhigh & Hwhy & Hhours & Hbest & Htags & Hconf).
  constructor.
  - rewrite Hn. split; [done|].
    destruct (or_else (prop c "name") (VStr "")); try discriminate.
    injection Hname as <-. apply trim_idempotent.
  - rewrite safeId_slugify in Hid. by eapply slugify_has_shape.
  - by eapply safeCategory_allowed.
  - eapply safeEnum_allowed; [|exact Hbest].
    apply list_elem_of_further, list_elem_of_here.
  - eapply safeString_sanitized; [|exact Hwhy]. lia.
  - eapply safeStringArray_sanitized; [| |exact Hhigh]; lia.
  - eapply safeStringArray_sanitized; [| |exact Htags]; lia.
  - destruct (ToNumber (prop c "time_needed_hours")) as [n|e] eqn:Hnum;
      [|by rewrite (safeNumber_throw _ _ _ e Hnum) in Hhours].
    destruct (isFinite n) eqn:Hf.
    + right. rewrite (safeNumber_finite _ n) in Hhours by done.
      injection Hhours as <-. eexists. split; [reflexivity|].
      apply clamp_between; [by apply isFinite_not_nan|reflexivity].
    + left. rewrite (safeNumber_not_finite _ n) in Hhours by done.
      by injection Hhours as <-.
  - by eapply geocodeConfidence_unit.
Qed.

(** What holds of every pushed place holds of the places after the loop,
    which are no more than the candidates. *)
Lemma geocode_loop_Forall (P : place -> Prop) (w : world) (token dq : string)
    (destBbox : value) (cs : list value) (geocoded out : list place) :
  (forall c p, geocodeCandidate w token dq destBbox c = Ok (Some p) -> P p) ->
  geocode_loop w token dq destBbox cs geocoded = Ok out ->
  Forall P geocoded ->
  Forall P out
  /\ (List.length out <= List.length geocoded + List.length cs)%nat.
Proof.
  intros HP. revert geocoded.
  induction cs as [|c cs IH]; intros geocoded; simpl.
  - intros [= <-] Hall. split; [done|lia].
  - destruct (geocodeCandidate w token dq destBbox c) as [[p|]|] eqn:Hc;
      simpl; [| |discriminate].
    + intros Hloop Hall.
      destruct (IH _ Hloop) as [Hout Hlen].
      * apply Forall_app. split; [done|]. constructor; [|constructor]. eauto.
      * split; [done|]. rewrite length_app in Hlen. simpl in Hlen. lia.
    + intros Hloop Hall. destruct (IH _ Hloop Hall) as [Hout Hlen].
      split; [done|]. lia.
Qed.

(** A JSON response comes from the empty branch or from the loop, after
    [max_places] was converted and bounded. *)
Lemma handler_json_inv (w : world) (req : request) (status : Z) (body : payload) :
  handler w req = Json status body ->
  exists maxPlaces : number,
    maxPlaces_of req = Ok maxPlaces
    /\ (places body = []
        \/ exists (dq : string) (destBbox : value) (candidates : list value)
                  (geocoded : list place),
             geocode_loop w (default "" (MAPBOX_TOKEN w)) dq destBbox
               (array_slice0 candidates maxPlaces) [] = Ok geocoded
             /\ places body = dedupePlaces geocoded).
Proof.
  unfold handler.
  destruct (handler_try w req) as [resp|e] eqn:Ht; [intros ->|discriminate].
  unfold handler_try in Ht. cbv zeta in Ht.
  repeat match type of Ht with
         | (if ?b then _ else _) = _ => destruct b
         | bind ?x _ = _ => destruct x eqn:?; cbn [bind] in Ht
         | Ok (Send _ _) = Ok (Json _ _) => discriminate Ht
         | Throw _ = Ok _ => discriminate Ht
         end.
  - injection Ht as <- <-. eexists. split; [eassumption|]. by left.
  - injection Ht as <- <-. eexists. split; [eassumption|]. right. simpl.
    do 4 eexists. split; [|reflexivity]. eassumption.
Qed.

(** X19. Every place of a 200 response is well formed: its name is a
    non-empty trimmed string, its [id] a slug of 1 to 64 characters, its
    category and time of day are of the allowed lists, [why_go] has at most
    260 characters, there are at most 6 highlights of at most 80 characters
    and at most 8 tags of at most 30 characters, none of them empty, the
    duration is [null] or lies in [0.5, 12], and the confidence lies in
    [0, 1] (or is NaN, when the geocoder sends a NaN relevance). *)
Theorem places_well_formed (w : world) (req : request) (status : Z)
    (body : payload) :
  handler w req = Json status body -> Forall well_formed (places body).
Proof.
  intros Hr.
  destruct (handler_json_inv w req status body Hr)
    as (maxPlaces & _ & [->|(dq & destBbox & cands & geocoded & Hloop & ->)]);
    [constructor|].
  destruct (geocode_loop_Forall well_formed _ _ _ _ _ _ _
              (geocodeCandidate_well_formed _ _ _ _) Hloop) as [Hall _];
    [constructor|].
  rewrite Forall_forall in Hall. apply Forall_forall. intros p Hp.
  apply Hall. eapply elem_of_sublist; [exact Hp|apply dedupePlaces_sublist].
Qed.

Lemma places_well_formed_witness :
  Forall well_formed [belem_place].
Proof.
  apply (places_well_formed atlantis_world lisbon_request 200
           {| destination_of :=
                {| dest_query := "Lisbon"; bbox := Some VNull |};
              places := [belem_place];
              meta_of :=
                {| generated_at := "2025-01-01T00:00:00.000Z";
                   geocode_provider := Some "mapbox";
                   cache_hit := false |} |}).
  vm_compute. reflexivity.
Defined.

(** X20. A 200 response is sent only when [max_places] converted; it holds
    at most 25 places, and no more than the effective [max_places]; their
    keys are pairwise different, so that no two of them have the same
    lower-cased [id] and the same lower-cased name. *)
Theorem places_bounded_distinct (w : world) (req : request) (status : Z)
    (body : payload) :
  handler w req = Json status body ->
  exists maxPlaces : number,
    maxPlaces_of req = Ok maxPlaces
    /\ Z.of_nat (List.length (places body)) <= trunc maxPlaces
    /\ trunc maxPlaces <= 25
    /\ NoDup (dedupe_key <$> places body)
    /\ NoDup ((fun p => (Str.toLowerCase (Place.id p),
                         Str.toLowerCase (Place.name p))) <$> places body).
Proof.
  intros Hr.
  destruct (handler_json_inv w req status body Hr) as (maxPlaces & Hmax & Hp).
  exists maxPlaces. split; [exact Hmax|].
  destruct (clampInt_integer _ _ Hmax) as (k & Hk & Hclamp).
  pose proof trunc_small_integers as Hsmall. rewrite Forall_forall in Hsmall.
  destruct (Hsmall k) as [Ht Hf]; [apply elem_of_seqZ; lia|].
  rewrite <- Hclamp in Ht, Hf.
  assert (Hkeys : NoDup (dedupe_key <$> places body)).
  { destruct Hp as [->|(dq & destBbox & cands & geocoded & _ & ->)];
      [constructor|].
    rewrite dedupePlaces_first_per_key. apply first_per_key_from_NoDup. }
  split; [|split; [lia|split; [exact Hkeys|]]].
  - destruct Hp as [->|(dq & destBbox & cands & geocoded & Hloop & ->)];
      [simpl; lia|].
    destruct (geocode_loop_Forall (fun _ => True) _ _ _ _ _ _ _
                (fun _ _ _ => I) Hloop) as [_ Hlen]; [constructor|].
    pose proof (sublist_length _ _ (dedupePlaces_sublist geocoded)) as Hsub.
    assert (Hslice : Z.of_nat (List.length (array_slice0 cands maxPlaces))
                     <= trunc maxPlaces).
    { unfold array_slice0. rewrite length_take.
      destruct maxPlaces as [| | |sg m e]; try discriminate Hf.
      - simpl in Ht. lia.
      - unfold Str.clamp_index. rewrite Ht.
        replace (k <? 0) with false by lia. lia. }
    simpl in Hlen. lia.
  - apply (NoDup_fmap_1
             (fun '(i, n) => i ++ "|" ++ n)).
    rewrite <- list_fmap_compose. exact Hkeys.
Qed.

Lemma places_bounded_distinct_witness :
  exists maxPlaces : number,
    maxPlaces_of lisbon_request = Ok maxPlaces
    /\ Z.of_nat (List.length [belem_place]) <= trunc maxPlaces
    /\ trunc maxPlaces <= 25.
Proof.
  destruct (places_bounded_distinct atlantis_world lisbon_request 200
              {| destination_of :=
                   {| dest_query := "Lisbon"; bbox := Some VNull |};
                 places := [belem_place];
                 meta_of :=
                   {| generated_at := "2025-01-01T00:00:00.000Z";
                      geocode_provider := Some "mapbox";
                      cache_hit := false |} |})
    as (maxPlaces & H0 & H1 & H2 & _); [vm_compute; reflexivity|].
  exists maxPlaces. split; [exact H0|]. split; [exact H1|exact H2].
Defined.

(** ** The geocoding request *)

(** X21. [mapboxGeocode] sends a bounding box only when it is an array of
    four entries: with any other value (as [null], when the destination has
    no [bbox]) the lookup is the unrestricted one; a box of four entries
    that do not convert to strings makes the call raise before anything is
    sent.  When the service answers the destination lookup of a request
    that reached the language model ([accepted]) with a status that is not
    ok, the request is answered 500 with "Mapbox geocode error (status): "
    and the body of the answer, or its status text when the body is empty;
    the fallback text "Server error" is not used for it. *)
Theorem mapboxGeocode_spec (w : world) (token query : string) (limit : number)
    (types : string) :
  (forall bbox : value,
     (forall items, bbox = VArr items -> List.length items <> 4%nat) ->
     mapboxGeocode w token query limit types bbox
     = mapboxGeocode w token query limit types VUndefined)
  /\ (forall (items : list value) (e : error),
        List.length items = 4%nat ->
        Array_join "," items = Throw e ->
        forall geo : geocode_request -> fetched,
          mapboxGeocode (with_mapbox w geo) token query limit types (VArr items)
          = Throw e)
  /\ (forall status statusText text json,
        mapbox w {| token := token; query := query; limit := limit;
                    types := types; geo_bbox := None |}
        = Response false status statusText text json ->
        mapboxGeocode w token query limit types VUndefined
        = Throw (upstream_error "Mapbox geocode error" status statusText text))
  /\ (forall (req : request) (ask : string) (maxPlaces : number)
             (llmJson : value) status statusText text json,
        token = default "" (MAPBOX_TOKEN w) ->
        limit = one ->
        types = "place,region,country" ->
        accepted w req query ask maxPlaces ->
        getCandidatePlacesFromLLM w (llm_request_of w req query ask maxPlaces)
        = Ok llmJson ->
        candidates_of llmJson <> [] ->
        mapbox w {| token := token; query := query; limit := limit;
                    types := types; geo_bbox := None |}
        = Response false status statusText text json ->
        handler w req =
        Send 500
          ("Mapbox geocode error (" ++ NumStr.to_string status ++ "): "
           ++ (if Str.is_empty text then statusText else text))).
Proof.
  split; [|split; [|split]].
  - intros bbox Hb. unfold mapboxGeocode.
    destruct bbox as [| | | | |items|]; try reflexivity.
    destruct (Z.of_nat (List.length items) =? 4) eqn:Hlen; [|reflexivity].
    apply Z.eqb_eq in Hlen. destruct (Hb items eq_refl). lia.
  - intros items e Hlen Hjoin geo. unfold mapboxGeocode.
    rewrite Hlen. change (Z.of_nat 4 =? 4) with true. cbv iota.
    by rewrite Hjoin.
  - intros status statusText text json Hr. unfold mapboxGeocode.
    cbn [bind]. by rewrite Hr.
  - intros req ask maxPlaces llmJson status statusText text json -> -> ->
      Hacc Hllm Hne Hr.
    destruct (handler_stages w req query ask maxPlaces llmJson Hacc Hllm)
      as [_ H].
    rewrite (H Hne). unfold mapboxGeocode. cbn [bind]. rewrite Hr. reflexivity.
Qed.

Lemma mapboxGeocode_spec_witness :
  mapboxGeocode castle_world "pk.test" "Castle, Lisbon" one
    "poi,neighborhood,place,address" VNull
  = mapboxGeocode castle_world "pk.test" "Castle, Lisbon" one
      "poi,neighborhood,place,address" VUndefined
  /\ mapboxGeocode castle_world "pk.test" "Castle, Lisbon" one
       "poi,neighborhood,place,address"
       (VArr [VNum one; VNum one; VObj [("toString", VNull)]; VNum one])
     = Throw not_primitive.
Proof.
  destruct (mapboxGeocode_spec castle_world "pk.test" "Castle, Lisbon" one
              "poi,neighborhood,place,address") as (H1 & H2 & _).
  split.
  - apply H1. intros items Hitems. discriminate Hitems.
  - apply (H2 [VNum one; VNum one; VObj [("toString", VNull)]; VNum one]
              not_primitive eq_refl eq_refl castle_geo).
Defined.

(** ** Inputs that do not convert *)

(** The message of a join that raises. *)
Lemma Array_join_not_primitive (sep : string) (items : list value) (e : error) :
  Array_join sep items = Throw e -> e = not_primitive.
Proof.
  intros H. destruct (Array_join_throw sep items e H) as (x & _ & Hx).
  by eapply ToString_throw.
Qed.

(** X22. A POST request with a destination whose [max_places] does not
    convert to a string (an object with an own [toString] property, which
    [JSON.parse] never makes a function) is answered 500 "Cannot convert
    object to primitive value": the conversion comes before the [ask] is
    trimmed and before the credentials are looked at. So is, once the
    credentials are found, a request with an interest among the first
    twelve that does not convert: the prompt is built before the chat
    endpoint is called. *)
Theorem unconvertible_inputs (w : world) (req : request) (dq : string) :
  method req = "POST" ->
  trim_method or_empty
    (or_else (prop (trip_of req) "destination_query") (VStr "")) = Ok dq ->
  Str.is_empty dq = false ->
  (forall e,
     ToString (prop (options_of req) "max_places") = Throw e ->
     handler w req = Send 500 "Cannot convert object to primitive value")
  /\ (forall (ask : string) (maxPlaces : number) (e : error),
        maxPlaces_of req = Ok maxPlaces ->
        trim_method or_empty
          (or_else (prop (trip_of req) "ask") (VStr "")) = Ok ask ->
        unset (OPENAI_API_KEY w) = false ->
        unset (MAPBOX_TOKEN w) = false ->
        Array_join ", " (interests_of req) = Throw e ->
        handler w req = Send 500 "Cannot convert object to primitive value").
Proof.
  intros Hm Hd Hb. split.
  - intros e He. rewrite (ToString_throw _ e He) in He.
    unfold handler, handler_try. rewrite Hm.
    change (negb ("POST" =? "POST")%string) with false. cbv iota.
    fold (trip_of req). fold (options_of req). rewrite Hd. cbn [bind].
    rewrite Hb. unfold clampInt, parseInt. by rewrite He.
  - intros ask maxPlaces e Hmax Ha Ho Hx He.
    rewrite (Array_join_not_primitive _ _ e He) in He.
    unfold handler, handler_try. rewrite Hm.
    change (negb ("POST" =? "POST")%string) with false. cbv iota.
    fold (trip_of req). fold (options_of req). rewrite Hd. cbn [bind].
    rewrite Hb. fold (maxPlaces_of req). rewrite Hmax. cbn [bind].
    rewrite Ha. cbn [bind]. rewrite Ho, Hx.
    fold (interests_of req). unfold getCandidatePlacesFromLLM.
    cbn [llm_interests]. by rewrite He.
Qed.

Lemma unconvertible_inputs_witness :
  handler bare_world
    {| method := "POST";
       body := VObj [("trip", VObj [("destination_query", VStr "Lisbon")]);
                     ("options",
                      VObj [("max_places", VObj [("toString", VNum one)])])] |}
  = Send 500 "Cannot convert object to primitive value"
  /\ handler (llm_world (ok_response VNull) (fun _ => None))
       {| method := "POST";
          body := VObj [("trip",
                         VObj [("destination_query", VStr "Lisbon");
                               ("interests",
                                VArr [VStr "food";
                                      VObj [("toString", VStr "art")]])])] |}
     = Send 500 "Cannot convert object to primitive value".
Proof.
  split.
  - destruct (unconvertible_inputs bare_world
                {| method := "POST";
                   body := VObj [("trip",
                                  VObj [("destination_query", VStr "Lisbon")]);
                                 ("options",
                                  VObj [("max_places",
                                         VObj [("toString", VNum one)])])] |}
                "Lisbon") as [H _]; [reflexivity|reflexivity|reflexivity|].
    apply (H not_primitive). reflexivity.
  - destruct (unconvertible_inputs
                (llm_world (ok_response VNull) (fun _ => None))
                {| method := "POST";
                   body := VObj [("trip",
                                  VObj [("destination_query", VStr "Lisbon");
                                        ("interests",
                                         VArr [VStr "food";
                                               VObj [("toString",
                                                      VStr "art")]])])] |}
                "Lisbon") as [_ H]; [reflexivity|reflexivity|reflexivity|].
    apply (H "" fifteen not_primitive);
      [reflexivity|reflexivity|reflexivity|reflexivity|reflexivity].
Defined.
